(** * Sparkify data lake ETL (etl.py): a model of the job and its properties

    The job is a Python script that drives a dataframe engine.  The model
    follows the script statement by statement:

    - a cell is a [value], a row a list of cells, a [DataFrame] a list of
      column names with a list of rows;
    - the engine's relational operators used by the script ([select],
      [distinct], [filter], [withColumn], [join]) are functions on frames;
      resolving a column name that the frame does not have raises, as the
      engine's analyser does when the statement is issued;
    - the script's effects (reading a dataset, registering and querying a
      temporary view, writing a table) act on a [World] made of the object
      store and the session's view catalog; a step [M] threads the world,
      records the effects it performs in order and may raise; an exception
      aborts the rest of the run and keeps the effects already performed.

    Column names are matched exactly: the frames are taken to carry the
    names in the spelling the script uses.  [==] compares cells of one
    column type, and a long with a double as doubles; the engine's other
    implicit casts are outside the model, and the properties of the join
    that depend on them assume columns of one type.  Double cells carry their
    exact rational value.  The module-level lines that read [dl.cfg] (lines 11-18) are not
    modelled: the model starts at [main]. *)

From Stdlib Require Import ZArith QArith Qcanon Lia.
From stdpp Require Import base numbers strings list option gmap.

(** ** Cells, rows and frames *)

Inductive value : Type :=
  | VNull
  | VBool (b : bool)
  | VStr (s : string)
  | VLong (n : Z)
  | VDouble (q : Qc)
  | VTimestamp (us : Z).

#[global] Instance value_eq_dec : EqDecision value.
Proof. solve_decision. Defined.

Abbreviation row := (list value).

Record DataFrame : Type := mkDataFrame {
  columns : list string;
  rows : list row
}.

#[global] Instance DataFrame_eq_dec : EqDecision DataFrame.
Proof. solve_decision. Defined.

(** The cell of a row at a position; a record that lacks the field reads as
    null, as the JSON reader fills it. *)
Definition cell (i : nat) (r : row) : value := default VNull (r !! i).

(** ** Exceptions and results *)

Inductive exn : Type :=
  | AttributeError (msg : string)
  | AnalysisException (msg : string)
  | TypeError (msg : string).

#[global] Instance exn_eq_dec : EqDecision exn.
Proof. solve_decision. Defined.

Inductive result (A : Type) : Type :=
  | Ok (a : A)
  | Raise (e : exn).
Arguments Ok {A} a.
Arguments Raise {A} e.

Definition rbind {A B} (m : result A) (k : A → result B) : result B :=
  match m with
  | Ok a => k a
  | Raise e => Raise e
  end.

Declare Scope result_scope.
Delimit Scope result_scope with result.
Notation "x ← y ; z" := (rbind y (λ x, z))
  (at level 20, y at level 100, z at level 200, only parsing) : result_scope.

Definition is_ok {A} (m : result A) : bool :=
  match m with Ok _ => true | Raise _ => false end.

(** ** Column resolution *)

(** Positions at which a name occurs in a list of column names. *)
Fixpoint positions (name : string) (cols : list string) (i : nat) : list nat :=
  match cols with
  | [] => []
  | c :: cs =>
      if decide (c = name) then i :: positions name cs (S i)
      else positions name cs (S i)
  end.

(** A name resolves when exactly one column carries it. *)
Definition resolve (name : string) (cols : list string) : option nat :=
  match positions name cols 0 with
  | [i] => Some i
  | _ => None
  end.

(** A resolved column: an expression over the rows of the frame it was taken
    from. *)
Definition Column : Type := row → value.

(** [df.name] *)
Definition getattr (df : DataFrame) (name : string) : result Column :=
  match resolve name (columns df) with
  | Some i => Ok (cell i)
  | None =>
      if decide (name ∈ columns df) then Raise (AnalysisException name)
      else Raise (AttributeError name)
  end.

(** [df['name']] *)
Definition getitem (df : DataFrame) (name : string) : result Column :=
  match resolve name (columns df) with
  | Some i => Ok (cell i)
  | None => Raise (AnalysisException name)
  end.

(** ** Column expressions *)

Definition lit (v : value) : Column := λ _, v.

(** [==] on cells: null when either side is null; a long compared with a
    double is read as a double first. *)
Definition sql_eq (v w : value) : value :=
  match v, w with
  | VNull, _ | _, VNull => VNull
  | VLong n, VDouble q | VDouble q, VLong n =>
      VBool (bool_decide (Q2Qc (inject_Z n) = q))
  | _, _ => VBool (bool_decide (v = w))
  end.

(** [&] on cells, three-valued. *)
Definition sql_and (v w : value) : value :=
  match v, w with
  | VBool false, _ | _, VBool false => VBool false
  | VBool true, VBool true => VBool true
  | _, _ => VNull
  end.

Definition col_eq (a b : Column) : Column := λ r, sql_eq (a r) (b r).

(** [/] on cells: the operands are read as doubles. *)
Definition to_double (v : value) : option Qc :=
  match v with
  | VLong n => Some (Q2Qc (inject_Z n))
  | VDouble q => Some q
  | _ => None
  end.

Definition sql_div (v w : value) : value :=
  match to_double v, to_double w with
  | Some a, Some b =>
      if decide (b = Q2Qc 0) then VNull else VDouble (a / b)%Qc
  | _, _ => VNull
  end.

Definition col_div (a : Column) (k : Z) : Column :=
  λ r, sql_div (a r) (VLong k).

(** Integer part of a rational, towards zero. *)
Definition Qc_trunc (q : Qc) : Z := Z.quot (Qnum q) (Z.pos (Qden q)).

(** [.cast('timestamp')]: a number is a count of seconds since the epoch,
    kept to the microsecond. *)
Definition cast_timestamp (v : value) : value :=
  match v with
  | VTimestamp us => VTimestamp us
  | VLong n => VTimestamp (n * 1000000)
  | VDouble q => VTimestamp (Qc_trunc (q * Q2Qc (inject_Z 1000000))%Qc)
  | _ => VNull
  end.

Definition col_cast_timestamp (a : Column) : Column := λ r, cast_timestamp (a r).

(** ** Calendar functions of the engine

    Timestamps are instants; the calendar fields are read in the session
    time zone, given by its offset [tz] from UTC in seconds. *)

Definition civil_from_days (z : Z) : Z * Z * Z :=
  let z := (z + 719468)%Z in
  let era := (z / 146097)%Z in
  let doe := (z - era * 146097)%Z in
  let yoe := ((doe - doe / 1460 + doe / 36524 - doe / 146096) / 365)%Z in
  let doy := (doe - (365 * yoe + yoe / 4 - yoe / 100))%Z in
  let mp := ((5 * doy + 2) / 153)%Z in
  let d := (doy - (153 * mp + 2) / 5 + 1)%Z in
  let m := (if mp <? 10 then mp + 3 else mp - 9)%Z in
  let y := (yoe + era * 400)%Z in
  ((if m <=? 2 then y + 1 else y)%Z, m, d).

Definition days_from_civil (y m d : Z) : Z :=
  let y' := (if m <=? 2 then y - 1 else y)%Z in
  let era := (y' / 400)%Z in
  let yoe := (y' - era * 400)%Z in
  let doy := ((153 * (if m <=? 2 then m + 9 else m - 3) + 2) / 5 + d - 1)%Z in
  let doe := (yoe * 365 + yoe / 4 - yoe / 100 + doy)%Z in
  (era * 146097 + doe - 719468)%Z.

Definition local_seconds (tz us : Z) : Z := (us / 1000000 + tz)%Z.
Definition local_day (tz us : Z) : Z := (local_seconds tz us / 86400)%Z.

Definition ts_year (tz us : Z) : Z := (civil_from_days (local_day tz us)).1.1.
Definition ts_month (tz us : Z) : Z := (civil_from_days (local_day tz us)).1.2.
Definition ts_dayofmonth (tz us : Z) : Z := (civil_from_days (local_day tz us)).2.
Definition ts_hour (tz us : Z) : Z := ((local_seconds tz us mod 86400) / 3600)%Z.
Definition ts_minute (tz us : Z) : Z := ((local_seconds tz us mod 3600) / 60)%Z.
Definition ts_second (tz us : Z) : Z := (local_seconds tz us mod 60)%Z.

(** ISO weekday, Monday = 1 ... Sunday = 7 (1970-01-01 was a Thursday). *)
Definition iso_weekday (day : Z) : Z := ((day + 3) mod 7 + 1)%Z.

(** ISO week: the week of a day is numbered within the year of its
    Thursday. *)
Definition ts_weekofyear (tz us : Z) : Z :=
  let day := local_day tz us in
  let thursday := (day - iso_weekday day + 4)%Z in
  let y := (civil_from_days thursday).1.1 in
  ((thursday - days_from_civil y 1 1) / 7 + 1)%Z.

(** [date_format(_, 'E')]: the abbreviated name of the weekday. *)
Definition weekday_name (wd : Z) : string :=
  match wd with
  | 1%Z => "Mon" | 2%Z => "Tue" | 3%Z => "Wed" | 4%Z => "Thu"
  | 5%Z => "Fri" | 6%Z => "Sat" | _ => "Sun"
  end.

Definition on_timestamp (f : Z → value) (v : value) : value :=
  match v with
  | VTimestamp us => f us
  | _ => VNull
  end.

Section Calendar.
Variable tz : Z.

Definition year (a : Column) : Column :=
  λ r, on_timestamp (λ us, VLong (ts_year tz us)) (a r).
Definition month (a : Column) : Column :=
  λ r, on_timestamp (λ us, VLong (ts_month tz us)) (a r).
Definition weekofyear (a : Column) : Column :=
  λ r, on_timestamp (λ us, VLong (ts_weekofyear tz us)) (a r).
Definition date_format_E (a : Column) : Column :=
  λ r, on_timestamp (λ us, VStr (weekday_name (iso_weekday (local_day tz us)))) (a r).
Definition dayofmonth (a : Column) : Column :=
  λ r, on_timestamp (λ us, VLong (ts_dayofmonth tz us)) (a r).
Definition hour (a : Column) : Column :=
  λ r, on_timestamp (λ us, VLong (ts_hour tz us)) (a r).
End Calendar.

(** ** Relational operators of the engine *)

(** An item of a [select]: a column name, or [col(name).alias(alias)]. *)
Inductive sel : Type :=
  | SName (name : string)
  | SAlias (name alias : string).

Definition sel_source (s : sel) : string :=
  match s with SName n | SAlias n _ => n end.

Definition sel_output (s : sel) : string :=
  match s with SName n => n | SAlias _ a => a end.

(** The items are resolved from left to right; the first one that does not
    resolve raises. *)
Fixpoint resolve_all (cols : list string) (names : list string) : result (list nat) :=
  match names with
  | [] => Ok []
  | n :: rest =>
      match resolve n cols with
      | Some i => (ixs ← resolve_all cols rest; Ok (i :: ixs))%result
      | None => Raise (AnalysisException n)
      end
  end.

(** A row cut or padded with nulls to the width of its frame. *)
Definition fit (n : nat) (r : row) : row := take n (r ++ replicate n VNull).

(** A column whose cell also depends on the position the engine gives the
    row (only [monotonically_increasing_id()] does). *)
Definition IColumn : Type := nat → row → value.

Module DF.

Definition select (items : list sel) (df : DataFrame) : result DataFrame :=
  (ixs ← resolve_all (columns df) (sel_source <$> items);
   Ok {| columns := sel_output <$> items;
         rows := (λ r, (λ i, cell i r) <$> ixs) <$> rows df |})%result.

Definition distinct (df : DataFrame) : DataFrame :=
  {| columns := columns df; rows := remove_dups (rows df) |}.

Definition filter (cond : Column) (df : DataFrame) : DataFrame :=
  {| columns := columns df;
     rows := base.filter (λ r, cond r = VBool true) (rows df) |}.

(** [withColumn] replaces the column of that name when there is one and
    appends a column otherwise. *)
Definition withColumn_at (name : string) (c : IColumn) (df : DataFrame) : DataFrame :=
  let n := length (columns df) in
  match positions name (columns df) 0 with
  | [] =>
      {| columns := columns df ++ [name];
         rows := imap (λ k r, fit n r ++ [c k r]) (rows df) |}
  | ps =>
      {| columns := columns df;
         rows := imap (λ k r, foldr (λ i acc, <[i := c k r]> acc) (fit n r) ps) (rows df) |}
  end.

Definition withColumn (name : string) (c : Column) (df : DataFrame) : DataFrame :=
  withColumn_at name (λ _, c) df.

End DF.

(** The result of [df.join(other, on, "inner")]: the columns of both sides
    and the pairs of rows that satisfy the condition. *)
Record JoinedFrame : Type := mkJoinedFrame {
  jleft : list string;
  jright : list string;
  jrows : list (row * row)
}.

Definition JoinCond : Type := row → row → value.

(** [left_column == right_column] and [&] in a join condition. *)
Definition jeq (a b : Column) : JoinCond := λ l r, sql_eq (a l) (b r).
Definition jand (p q : JoinCond) : JoinCond := λ l r, sql_and (p l r) (q l r).

(** An item of a [select] on a joined frame: a name, resolved among the
    columns of both sides, or a column of the left frame with an alias
    ([df['year'].alias('year')]). *)
Inductive jsel : Type :=
  | JName (name : string)
  | JLeft (c : Column) (alias : string).

Definition jsel_output (s : jsel) : string :=
  match s with JName n => n | JLeft _ a => a end.

Definition jresolve (lcols rcols : list string) (s : jsel) : result (row * row → value) :=
  match s with
  | JLeft c _ => Ok (λ p, c p.1)
  | JName name =>
      match positions name lcols 0, positions name rcols 0 with
      | [i], [] => Ok (λ p, cell i p.1)
      | [], [i] => Ok (λ p, cell i p.2)
      | _, _ => Raise (AnalysisException name)
      end
  end.

Fixpoint jresolve_all (lcols rcols : list string) (items : list jsel)
  : result (list (row * row → value)) :=
  match items with
  | [] => Ok []
  | s :: rest =>
      (f ← jresolve lcols rcols s;
       fs ← jresolve_all lcols rcols rest;
       Ok (f :: fs))%result
  end.

Module JF.

Definition join (df other : DataFrame) (on : JoinCond) : JoinedFrame :=
  {| jleft := columns df;
     jright := columns other;
     jrows := l ← rows df; r ← rows other;
              if decide (on l r = VBool true) then [(l, r)] else [] |}.

Definition distinct (j : JoinedFrame) : JoinedFrame :=
  {| jleft := jleft j; jright := jright j; jrows := remove_dups (jrows j) |}.

Definition select (items : list jsel) (j : JoinedFrame) : result DataFrame :=
  (fs ← jresolve_all (jleft j) (jright j) items;
   Ok {| columns := jsel_output <$> items;
         rows := (λ p, (λ f : row * row → value, f p) <$> fs) <$> jrows j |})%result.

End JF.

(** ** The world of the job: object store, view catalog, trace *)

Inductive SaveMode : Type := Overwrite | Append | Ignore | ErrorIfExists.

#[global] Instance SaveMode_eq_dec : EqDecision SaveMode.
Proof. solve_decision. Defined.

(** What is stored under a path: the rows and the columns the files are
    partitioned by. *)
Record Dataset : Type := mkDataset {
  partitionBy : list string;
  table : DataFrame
}.

#[global] Instance Dataset_eq_dec : EqDecision Dataset.
Proof. solve_decision. Defined.

(** The effects a run performs, in order.  A write carries the frame that
    was written, a view event the frame that was registered or returned. *)
Inductive Event : Type :=
  | EvRead (path : string)
  | EvWrite (mode : SaveMode) (parts : list string) (path : string) (df : DataFrame)
  | EvRegisterView (name : string) (df : DataFrame)
  | EvQueryView (name : string) (df : DataFrame).

#[global] Instance Event_eq_dec : EqDecision Event.
Proof. solve_decision. Defined.

Record World : Type := mkWorld {
  s3 : gmap string Dataset;
  views : gmap string DataFrame
}.

(** A step of the script: from a world to the world it leaves, the effects
    it performed and its result.  An exception keeps the world and the
    effects reached so far. *)
Record Outcome (A : Type) : Type := mkOutcome {
  world : World;
  events : list Event;
  res : result A
}.
Arguments mkOutcome {A} _ _ _.
Arguments world {A} _.
Arguments events {A} _.
Arguments res {A} _.

Definition M (A : Type) : Type := World → Outcome A.

Definition ret {A} (a : A) : M A := λ w, mkOutcome w [] (Ok a).

Definition bind {A B} (m : M A) (k : A → M B) : M B := λ w,
  let o := m w in
  match res o with
  | Ok a =>
      let o' := k a (world o) in
      mkOutcome (world o') (events o ++ events o') (res o')
  | Raise e => mkOutcome (world o) (events o) (Raise e)
  end.

Declare Scope run_scope.
Delimit Scope run_scope with run.
Notation "x ← y ; z" := (bind y (λ x, z))
  (at level 20, y at level 100, z at level 200, only parsing) : run_scope.
Notation "x ;; z" := (bind x (λ _, z))
  (at level 100, z at level 200, only parsing, right associativity) : run_scope.

(** An analysis or Python error of a pure step, raised in the run. *)
Definition lift {A} (m : result A) : M A := λ w, mkOutcome w [] m.

(** [spark.read.json(path)] *)
Definition read_json (path : string) : M DataFrame := λ w,
  match s3 w !! path with
  | Some d => mkOutcome w [EvRead path] (Ok (table d))
  | None => mkOutcome w [] (Raise (AnalysisException path))
  end.

(** What a write leaves under the path, by save mode. *)
Definition save (mode : SaveMode) (old : option Dataset) (new : Dataset)
  : result Dataset :=
  match mode, old with
  | Overwrite, _ | _, None => Ok new
  | Append, Some d =>
      Ok {| partitionBy := partitionBy d;
            table := {| columns := columns (table d);
                        rows := rows (table d) ++ rows (table new) |} |}
  | Ignore, Some d => Ok d
  | ErrorIfExists, Some _ => Raise (AnalysisException "path already exists")
  end.

(** [df.write.mode(mode).partitionBy(parts).parquet(path)] *)
Definition write_parquet (mode : SaveMode) (parts : list string) (path : string)
    (df : DataFrame) : M unit := λ w,
  match resolve_all (columns df) parts with
  | Raise e => mkOutcome w [] (Raise e)
  | Ok _ =>
      match save mode (s3 w !! path) {| partitionBy := parts; table := df |} with
      | Raise e => mkOutcome w [] (Raise e)
      | Ok d =>
          mkOutcome {| s3 := <[path := d]> (s3 w); views := views w |}
                    [EvWrite mode parts path df] (Ok ())
      end
  end.

(** [df.createOrReplaceTempView(name)] *)
Definition createOrReplaceTempView (name : string) (df : DataFrame) : M unit := λ w,
  mkOutcome {| s3 := s3 w; views := <[name := df]> (views w) |}
            [EvRegisterView name df] (Ok ()).

(** [spark.sql("SELECT * FROM name")] *)
Definition sql_select_all (name : string) : M DataFrame := λ w,
  match views w !! name with
  | Some df => mkOutcome w [EvQueryView name df] (Ok df)
  | None => mkOutcome w [] (Raise (AnalysisException name))
  end.

(** ** Python objects of the script *)

Inductive pyobj : Type :=
  | PyStr (s : string)
  | PyInt (n : Z)
  | PyColumn (c : Column)
  | PyUdf (f : value → value).

Definition py_type_name (o : pyobj) : string :=
  match o with
  | PyStr _ => "str"
  | PyInt _ => "int"
  | PyColumn _ => "Column"
  | PyUdf _ => "function"
  end.

Definition not_callable (o : pyobj) : exn :=
  TypeError ("'" +:+ py_type_name o +:+ "' object is not callable").

(** [f(args)]: only a UDF object is callable, on one resolved column. *)
Definition py_call (f : pyobj) (args : list pyobj) : result pyobj :=
  match f with
  | PyUdf g =>
      match args with
      | [PyColumn c] => Ok (PyColumn (λ r, g (c r)))
      | _ => Raise (TypeError "Invalid argument, not a string or column")
      end
  | _ => Raise (not_callable f)
  end.

(** [o.cast('timestamp')] *)
Definition py_cast_timestamp (o : pyobj) : result pyobj :=
  match o with
  | PyColumn c => Ok (PyColumn (col_cast_timestamp c))
  | _ => Raise (AttributeError "cast")
  end.

(** [df.withColumn(...)] with the arguments it was given *)
Definition py_withColumn (df : DataFrame) (args : list pyobj) : result DataFrame :=
  match args with
  | [PyStr name; PyColumn c] => Ok (DF.withColumn name c df)
  | [_; _] => Raise (TypeError "col should be Column")
  | _ => Raise (TypeError "withColumn() missing 1 required positional argument: 'col'")
  end.

(** ** The session *)

Inductive DataType : Type := TimestampType | DateType.

(** The Python lambdas the script wraps as UDFs:
    [lambda x: x / 1000] and [lambda x: datetime.fromtimestamp(x)]. *)
Inductive PyLambda : Type := LambdaDivideBy1000 | LambdaFromTimestamp.

(** What the script cannot fix about the session it obtains: the session time
    zone (offset from UTC in seconds), the id that
    [monotonically_increasing_id()] gives the row at a position, and the cell
    the Python worker returns for a lambda declared with a return type.  The
    two UDF columns of lines 135-139 are never forced by the script: line 143
    raises before any action on their frame, so what the worker returns, or
    whether it fails, shows in no run. *)
Record SparkSession : Type := mkSparkSession {
  timeZone : Z;
  monotonically_increasing_id : nat → Z;
  python_worker : PyLambda → DataType → value → value
}.

(** [udf(f, returnType)] *)
Definition udf (spark : SparkSession) (f : PyLambda) (returnType : DataType) : pyobj :=
  PyUdf (python_worker spark f returnType).

(** ** process_song_data (etl.py, lines 42-87) *)

Definition songs_table_view : string := "songs_table_view".

(** The column lists of the three [select]s (lines 73, 76 and 83). *)
Definition songs_items : list sel :=
  [SName "song_id"; SName "title"; SName "artist_id"; SName "year"; SName "duration"].
Definition view_items : list sel :=
  [SName "song_id"; SName "title"; SName "artist_id"; SName "year"; SName "duration";
   SName "artist_name"].
Definition artists_items : list sel :=
  [SName "artist_id"; SName "artist_name"; SName "artist_location";
   SName "artist_latitude"; SName "artist_longitude"].

Definition process_song_data (spark : SparkSession) (input_data output_data : string)
  : M unit :=
  (let song_data := input_data +:+ "song_data/*/*/*/*.json" in
   let log_data := input_data +:+ "log_data/*/*/*.json" in
   df ← read_json song_data;
   songs_table ← lift (DF.select songs_items df);
   let songs_table := DF.distinct songs_table in
   view ← lift (DF.select view_items df);
   createOrReplaceTempView songs_table_view (DF.distinct view);;
   write_parquet Overwrite ["year"; "artist_id"] (output_data +:+ "songs") songs_table;;
   artists_table ← lift (DF.select artists_items df);
   let artists_table := DF.distinct artists_table in
   write_parquet Overwrite [] (output_data +:+ "artists") artists_table)%run.

(** ** process_log_data (etl.py, lines 92-176) *)

(** Lines 110-139: read and filter the events, write [users], add the two
    UDF columns. *)
Definition log_head (spark : SparkSession) (input_data output_data : string)
  : M DataFrame :=
  (let log_data := input_data +:+ "log_data/*/*/*.json" in
   df ← read_json log_data;
   page ← lift (getattr df "page");
   let df := DF.filter (col_eq page (lit (VStr "NextSong"))) df in
   artists_table ← lift (DF.select [SName "userId"; SName "firstName"; SName "lastName";
                                    SName "gender"; SName "level"] df);
   let artists_table := DF.distinct artists_table in
   users_table ← lift (DF.select [SAlias "userId" "user_id";
                                  SAlias "firstName" "first_name";
                                  SAlias "lastName" "last_name";
                                  SName "gender"; SName "level"] df);
   let users_table := DF.distinct users_table in
   write_parquet Overwrite [] (output_data +:+ "users") users_table;;
   let get_timestamp := udf spark LambdaDivideBy1000 TimestampType in
   ts ← lift (getattr df "ts");
   c ← lift (py_call get_timestamp [PyColumn ts]);
   df ← lift (py_withColumn df [PyStr "timestamp"; c]);
   let get_datetime := udf spark LambdaFromTimestamp TimestampType in
   timestamp ← lift (getattr df "timestamp");
   c ← lift (py_call get_datetime [PyColumn timestamp]);
   df ← lift (py_withColumn df [PyStr "start_time"; c]);
   ret df)%run.

(** Line 143:
    [df=df.withColumn('start_time'(df['ts']/1000).cast('timestamp'))].
    The argument of [withColumn] is a call whose callee is the string literal
    ['start_time'] and whose argument is [df['ts']/1000]. *)
Definition line_143_callee : pyobj := PyStr "start_time".

Definition line_143 (df : DataFrame) : M DataFrame :=
  (ts ← lift (getitem df "ts");
   c ← lift (py_call line_143_callee [PyColumn (col_div ts 1000)]);
   c ← lift (py_cast_timestamp c);
   lift (py_withColumn df [c]))%run.

(** Lines 165-172: the join of the events with the songs view. *)
Definition songplays_join (df song_df : DataFrame) : result JoinedFrame :=
  (song ← getattr df "song";
   title ← getattr song_df "title";
   artist ← getattr df "artist";
   artist_name ← getattr song_df "artist_name";
   length ← getattr df "length";
   duration ← getattr song_df "duration";
   Ok (JF.distinct
         (JF.join df song_df
            (jand (jand (jeq song title) (jeq artist artist_name))
                  (jeq length duration)))))%result.

Definition songplays_items (year month : Column) : list jsel :=
  [JName "start_time"; JName "userId"; JName "level"; JName "song_id";
   JName "artist_id"; JName "sessionId"; JName "location"; JName "userAgent";
   JLeft year "year"; JLeft month "month"].

Definition songplays_table (spark : SparkSession) (df song_df : DataFrame)
  : result DataFrame :=
  (joined ← songplays_join df song_df;
   year ← getitem df "year";
   month ← getitem df "month";
   selected ← JF.select (songplays_items year month) joined;
   Ok (DF.withColumn_at "songplay_id"
         (λ k _, VLong (monotonically_increasing_id spark k)) selected))%result.

(** Lines 144-149: the calendar columns derived from [start_time]. *)
Definition calendar_columns (tz : Z) (df : DataFrame) : result DataFrame :=
  (start_time ← getitem df "start_time";
   let df := DF.withColumn "year" (year tz start_time) df in
   start_time ← getitem df "start_time";
   let df := DF.withColumn "month" (month tz start_time) df in
   start_time ← getitem df "start_time";
   let df := DF.withColumn "week" (weekofyear tz start_time) df in
   start_time ← getitem df "start_time";
   let df := DF.withColumn "weekday" (date_format_E tz start_time) df in
   start_time ← getitem df "start_time";
   let df := DF.withColumn "day" (dayofmonth tz start_time) df in
   start_time ← getitem df "start_time";
   let df := DF.withColumn "hour" (hour tz start_time) df in
   Ok df)%result.

Definition time_items : list sel :=
  [SName "start_time"; SName "hour"; SName "day"; SName "week"; SName "weekday";
   SName "year"; SName "month"].

(** Lines 144-176: the calendar columns, the [time] table and the
    [songplays] table. *)
Definition log_tail (spark : SparkSession) (output_data : string) (df : DataFrame)
  : M unit :=
  (df ← lift (calendar_columns (timeZone spark) df);
   createOrReplaceTempView "log_view" df;;
   time_table ← lift (DF.select time_items df);
   let time_table := DF.distinct time_table in
   write_parquet Overwrite ["year"; "month"] (output_data +:+ "time") time_table;;
   song_df ← sql_select_all songs_table_view;
   songplays_table ← lift (songplays_table spark df song_df);
   write_parquet Overwrite ["year"; "month"] (output_data +:+ "songplays")
     songplays_table)%run.

Definition process_log_data (spark : SparkSession) (input_data output_data : string)
  : M unit :=
  (df ← log_head spark input_data output_data;
   df ← line_143 df;
   log_tail spark output_data df)%run.

(** [process_log_data] with the statement of line 121 (the first [select],
    bound to [artists_table]) removed. *)
Definition log_head_without_line_121 (spark : SparkSession)
    (input_data output_data : string) : M DataFrame :=
  (let log_data := input_data +:+ "log_data/*/*/*.json" in
   df ← read_json log_data;
   page ← lift (getattr df "page");
   let df := DF.filter (col_eq page (lit (VStr "NextSong"))) df in
   users_table ← lift (DF.select [SAlias "userId" "user_id";
                                  SAlias "firstName" "first_name";
                                  SAlias "lastName" "last_name";
                                  SName "gender"; SName "level"] df);
   let users_table := DF.distinct users_table in
   write_parquet Overwrite [] (output_data +:+ "users") users_table;;
   let get_timestamp := udf spark LambdaDivideBy1000 TimestampType in
   ts ← lift (getattr df "ts");
   c ← lift (py_call get_timestamp [PyColumn ts]);
   df ← lift (py_withColumn df [PyStr "timestamp"; c]);
   let get_datetime := udf spark LambdaFromTimestamp TimestampType in
   timestamp ← lift (getattr df "timestamp");
   c ← lift (py_call get_datetime [PyColumn timestamp]);
   df ← lift (py_withColumn df [PyStr "start_time"; c]);
   ret df)%run.

Definition process_log_data_without_line_121 (spark : SparkSession)
    (input_data output_data : string) : M unit :=
  (df ← log_head_without_line_121 spark input_data output_data;
   df ← line_143 df;
   log_tail spark output_data df)%run.

(** ** main (etl.py, lines 182-201) *)

Definition input_data : string := "s3a://udacity-dend/".
Definition output_data : string := "s3a://aws-logs-datalake-project-2022-us-west-2/".

(** [create_spark_session()]: the session [getOrCreate()] hands out. *)
Definition create_spark_session (session : SparkSession) : M SparkSession :=
  ret session.

Definition main (session : SparkSession) : M unit :=
  (spark ← create_spark_session session;
   process_song_data spark input_data output_data;;
   process_log_data spark input_data output_data)%run.

(** One run of the script: a new process starts with an empty view catalog;
    the object store is what the previous runs left. *)
Definition new_process (w : World) : World :=
  {| s3 := s3 w; views := ∅ |}.

Definition run_job (session : SparkSession) (w : World) : Outcome unit :=
  main session (new_process w).

(** ** Reading tables back *)

(** The cell of a row under a column name of its frame. *)
Definition cell_of (df : DataFrame) (name : string) (r : row) : value :=
  match resolve name (columns df) with
  | Some i => cell i r
  | None => VNull
  end.

(** The event row [e] and the song row [s] agree exactly on title, artist
    name and duration: the three pairs of cells are equal and not null. *)
Definition exact_match (df song_df : DataFrame) (e s : row) : Prop :=
  (cell_of df "song" e = cell_of song_df "title" s ∧ cell_of df "song" e ≠ VNull)
  ∧ (cell_of df "artist" e = cell_of song_df "artist_name" s
     ∧ cell_of df "artist" e ≠ VNull)
  ∧ (cell_of df "length" e = cell_of song_df "duration" s
     ∧ cell_of df "length" e ≠ VNull).

(** Two cells are of one column type; a null cell is of every type. *)
Definition same_type (v w : value) : Prop :=
  match v, w with
  | VNull, _ | _, VNull => True
  | VBool _, VBool _ | VStr _, VStr _ | VLong _, VLong _
  | VDouble _, VDouble _ | VTimestamp _, VTimestamp _ => True
  | _, _ => False
  end.

(** The columns that the join of lines 165-167 compares are pairwise of one
    type: [song] and [title], [artist] and [artist_name], [length] and
    [duration]. *)
Definition join_columns_same_type (df song_df : DataFrame) : Prop :=
  ∀ e s, e ∈ rows df → s ∈ rows song_df →
    same_type (cell_of df "song" e) (cell_of song_df "title" s)
    ∧ same_type (cell_of df "artist" e) (cell_of song_df "artist_name" s)
    ∧ same_type (cell_of df "length" e) (cell_of song_df "duration" s).

(** The join condition of lines 165-167 holds of an event row and a song
    row. *)
Definition join_match (df song_df : DataFrame) (e s : row) : Prop :=
  sql_eq (cell_of df "song" e) (cell_of song_df "title" s) = VBool true
  ∧ sql_eq (cell_of df "artist" e) (cell_of song_df "artist_name" s) = VBool true
  ∧ sql_eq (cell_of df "length" e) (cell_of song_df "duration" s) = VBool true.

(** ** Frames that carry a derived time

    The columns that lines 143-149 are to derive from [ts], and the effects
    that hand a frame out of the pipeline (a write, a view registration)
    without any of them. *)
Definition derived_time_columns : list string :=
  ["start_time"; "year"; "month"; "day"; "hour"].

Definition without_derived_time (ev : Event) : Prop :=
  match ev with
  | EvWrite _ _ _ df | EvRegisterView _ df =>
      ∀ c, c ∈ derived_time_columns → c ∉ columns df
  | _ => True
  end.

(** The instant 2018-11-01T21:37:10 UTC, in microseconds since the epoch. *)
Definition instant_2018_11_01_21_37_10 : Z :=
  ((days_from_civil 2018 11 1 * 86400 + 21 * 3600 + 37 * 60 + 10) * 1000000)%Z.

(** ** Classifying effects *)

(** The effects of lines 110-139: the read of the events and the write of
    [users], in overwrite mode and unpartitioned. *)
Definition head_effect (i o : string) (ev : Event) : Prop :=
  ev = EvRead (i +:+ "log_data/*/*/*.json")
  ∨ ∃ df, ev = EvWrite Overwrite [] (o +:+ "users") df.

(** A write is in overwrite mode and partitioned as its table is meant to
    be; other effects pass. *)
Definition write_as_specified (o : string) (ev : Event) : Prop :=
  match ev with
  | EvWrite mode parts path _ =>
      mode = Overwrite
      ∧ (path = o +:+ "songs" ∧ parts = ["year"; "artist_id"]
         ∨ path = o +:+ "artists" ∧ parts = []
         ∨ path = o +:+ "users" ∧ parts = []
         ∨ path = o +:+ "time" ∧ parts = ["year"; "month"]
         ∨ path = o +:+ "songplays" ∧ parts = ["year"; "month"])
  | _ => True
  end.

Definition registers (name : string) (ev : Event) : Prop :=
  match ev with
  | EvRegisterView n _ => n = name
  | _ => False
  end.

Definition queries (name : string) (ev : Event) : Prop :=
  match ev with
  | EvQueryView n _ => n = name
  | _ => False
  end.

#[global] Instance registers_dec name ev : Decision (registers name ev).
Proof. destruct ev; simpl; apply _. Defined.

#[global] Instance queries_dec name ev : Decision (queries name ev).
Proof. destruct ev; simpl; apply _. Defined.

(** The store after an effect, and after a list of effects: only writes
    change it. *)
Definition replay_event (m : gmap string Dataset) (ev : Event) : gmap string Dataset :=
  match ev with
  | EvWrite mode parts path df =>
      match save mode (m !! path) (mkDataset parts df) with
      | Ok d => <[path := d]> m
      | Raise _ => m
      end
  | _ => m
  end.

Definition replay (evs : list Event) (m : gmap string Dataset) : gmap string Dataset :=
  foldl replay_event m evs.

(** The dataset last written under a path by a list of effects. *)
Definition last_write (p : string) (evs : list Event) : option Dataset :=
  foldl (λ acc ev,
           match ev with
           | EvWrite _ parts path df =>
               if decide (path = p) then Some (mkDataset parts df) else acc
           | _ => acc
           end) None evs.

Definition overwrites (ev : Event) : Prop :=
  match ev with
  | EvWrite mode _ _ _ => mode = Overwrite
  | _ => True
  end.

(** ** Properties of steps that compose over [bind] *)

(** The store a step leaves is the store it found with its writes replayed. *)
Definition tracked {A} (m : M A) : Prop :=
  ∀ w, s3 (world (m w)) = replay (events (m w)) (s3 w).

(** Every effect of the step satisfies [P]. *)
Definition effects_in {A} (P : Event → Prop) (m : M A) : Prop :=
  ∀ w, Forall P (events (m w)).

(** Two worlds agree under the given paths of the store and on the views. *)
Definition agree (paths : list string) (w w' : World) : Prop :=
  (∀ p, p ∈ paths → s3 w !! p = s3 w' !! p) ∧ views w = views w'.

(** The step reads the store only under [paths]: from two worlds that agree
    there, it performs the same effects, ends with the same result and
    leaves worlds that still agree. *)
Definition reads_only {A} (paths : list string) (m : M A) : Prop :=
  ∀ w w', agree paths w w' →
    events (m w) = events (m w') ∧ res (m w) = res (m w')
    ∧ agree paths (world (m w)) (world (m w')).

(** The mode, partition columns and path of a write. *)
Definition write_summary (ev : Event) : option (SaveMode * list string * string) :=
  match ev with
  | EvWrite mode parts path _ => Some (mode, parts, path)
  | _ => None
  end.

(** ** Uniqueness of rows *)

(** No two rows at different positions agree on the given columns. *)
Definition unique_on (cols : list string) (t : DataFrame) : Prop :=
  ∀ i j r1 r2,
    rows t !! i = Some r1 → rows t !! j = Some r2 →
    (∀ c, c ∈ cols → cell_of t c r1 = cell_of t c r2) →
    i = j.

(** ** Sample data

    The records of the end-to-end example, as the JSON reader loads them
    (columns in alphabetical order), once with exactly the fields the
    example lists and once with the other fields the pipelines select,
    null. *)
Module Sample.

Definition session : SparkSession :=
  {| timeZone := 0; monotonically_increasing_id := Z.of_nat;
     python_worker := λ _ _ _, VNull |}.

Definition ten_and_a_half : Qc := Q2Qc (21 # 2).

Definition log_exact : DataFrame :=
  {| columns := ["artist"; "length"; "page"; "song"; "ts"; "userId"];
     rows := [[VStr "Y"; VDouble ten_and_a_half; VStr "NextSong"; VStr "X";
               VLong 1541105830796; VStr "10"]] |}.

Definition song_exact : DataFrame :=
  {| columns := ["artist_id"; "artist_name"; "duration"; "song_id"; "title"; "year"];
     rows := [[VStr "A1"; VStr "Y"; VDouble ten_and_a_half; VStr "S1"; VStr "X";
               VLong 2000]] |}.

Definition log_full : DataFrame :=
  {| columns := ["artist"; "firstName"; "gender"; "lastName"; "length"; "level";
                 "location"; "page"; "sessionId"; "song"; "ts"; "userAgent";
                 "userId"];
     rows := [[VStr "Y"; VNull; VNull; VNull; VDouble ten_and_a_half; VNull;
               VNull; VStr "NextSong"; VNull; VStr "X"; VLong 1541105830796;
               VNull; VStr "10"]] |}.

Definition song_full : DataFrame :=
  {| columns := ["artist_id"; "artist_latitude"; "artist_location";
                 "artist_longitude"; "artist_name"; "duration"; "song_id";
                 "title"; "year"];
     rows := [[VStr "A1"; VNull; VNull; VNull; VStr "Y"; VDouble ten_and_a_half;
               VStr "S1"; VStr "X"; VLong 2000]] |}.

(** Two song records of one artist, credited under two names. *)
Definition song_two_names : DataFrame :=
  {| columns := ["artist_id"; "artist_latitude"; "artist_location";
                 "artist_longitude"; "artist_name"; "duration"; "song_id";
                 "title"; "year"];
     rows := [[VStr "A1"; VNull; VNull; VNull; VStr "Y"; VDouble ten_and_a_half;
               VStr "S1"; VStr "X"; VLong 2000];
              [VStr "A1"; VNull; VNull; VNull; VStr "Y and friends";
               VDouble ten_and_a_half; VStr "S2"; VStr "Z"; VLong 2001]] |}.

Definition store (songs logs : DataFrame) : World :=
  {| s3 := <[input_data +:+ "log_data/*/*/*.json" := mkDataset [] logs]>
             (<[input_data +:+ "song_data/*/*/*/*.json" := mkDataset [] songs]> ∅);
     views := ∅ |}.

Definition world_exact : World := store song_exact log_exact.
Definition world_full : World := store song_full log_full.
Definition world_two_names : World := store song_two_names log_full.

(** The world after the song pipeline and after the head of the log
    pipeline on the full records. *)
Definition song_world : World :=
  world (process_song_data session input_data output_data world_full).

Definition head_run : Outcome DataFrame :=
  log_head session input_data output_data song_world.

(** A frame for lines 144-176 to start from: the full log record with a
    [timestamp] cell and, as [start_time], the instant that is
    1541105830796 milliseconds after the epoch. *)
Definition timed_events : DataFrame :=
  {| columns := columns log_full ++ ["timestamp"; "start_time"];
     rows := [[VStr "Y"; VNull; VNull; VNull; VDouble ten_and_a_half; VNull;
               VNull; VStr "NextSong"; VNull; VStr "X"; VLong 1541105830796;
               VNull; VStr "10"; VNull; VTimestamp 1541105830796000]] |}.

(** The same events with the calendar columns of lines 144-149, the view
    the song pipeline registered, and the [songplays] table of lines
    165-172 over them. *)
Definition calendar_events : DataFrame :=
  match calendar_columns (timeZone session) timed_events with
  | Ok df => df
  | Raise _ => {| columns := []; rows := [] |}
  end.

Definition songs_view : DataFrame :=
  default {| columns := []; rows := [] |} (views song_world !! songs_table_view).

Definition songplays : DataFrame :=
  match songplays_table session calendar_events songs_view with
  | Ok t => t
  | Raise _ => {| columns := []; rows := [] |}
  end.

End Sample.

(** ** The row of the end-to-end example *)

(** A [songplays] table is stored with a row whose [song_id], [artist_id],
    [year] and [month] are as the example says. *)
Definition has_example_row (w : World) : Prop :=
  ∃ sp r,
    s3 w !! (output_data +:+ "songplays") = Some sp
    ∧ r ∈ rows (table sp)
    ∧ cell_of (table sp) "song_id" r = VStr "S1"
    ∧ cell_of (table sp) "artist_id" r = VStr "A1"
    ∧ cell_of (table sp) "year" r = VLong 2018
    ∧ cell_of (table sp) "month" r = VLong 11.

(** ** Reading the pipelines' inputs and outputs *)

(** Every name of the list resolves among the columns. *)
Definition resolvable (cols : list string) (names : list string) : Prop :=
  Forall (λ n, is_Some (resolve n cols)) names.

(** The cells of a row under the given column names of its frame. *)
Definition project (df : DataFrame) (names : list string) (x : row) : row :=
  (λ n, cell_of df n x) <$> names.

(** The columns the song pipeline selects (lines 73, 76, 83) and the columns
    the head of the log pipeline uses (lines 117-135). *)
Definition song_columns : list string :=
  ["song_id"; "title"; "artist_id"; "year"; "duration"; "artist_name";
   "artist_location"; "artist_latitude"; "artist_longitude"].

Definition user_columns : list string :=
  ["userId"; "firstName"; "lastName"; "gender"; "level"].

(** The items of the [select] of lines 124-128. *)
Definition users_items : list sel :=
  [SAlias "userId" "user_id"; SAlias "firstName" "first_name";
   SAlias "lastName" "last_name"; SName "gender"; SName "level"].

Definition song_path (i : string) : string := i +:+ "song_data/*/*/*/*.json".
Definition log_path (i : string) : string := i +:+ "log_data/*/*/*.json".

(** A write goes to one of the given paths; other effects pass. *)
Definition writes_within (paths : list string) (ev : Event) : Prop :=
  match ev with
  | EvWrite _ _ path _ => path ∈ paths
  | _ => True
  end.

(** The row [withColumn] makes of a row of a frame with the given columns. *)
Definition withColumn_row (name : string) (c : Column) (cols : list string)
    (r : row) : row :=
  match positions name cols 0 with
  | [] => fit (length cols) r ++ [c r]
  | ps => foldr (λ i acc, <[i := c r]> acc) (fit (length cols) r) ps
  end.

(** The row of the [time] table for a [start_time] cell, in the order of the
    [select] of line 151. *)
Definition time_row (tz : Z) (st : value) : row :=
  [st; hour tz (lit st) []; dayofmonth tz (lit st) []; weekofyear tz (lit st) [];
   date_format_E tz (lit st) []; year tz (lit st) []; month tz (lit st) []].

(** A [time] table is stored with a row that carries the given cells as
    [start_time], [year], [month], [day] and [hour]. *)
Definition has_time_row (w : World) (st y m d h : value) : Prop :=
  ∃ t r,
    s3 w !! (output_data +:+ "time") = Some t
    ∧ r ∈ rows (table t)
    ∧ cell_of (table t) "start_time" r = st
    ∧ cell_of (table t) "year" r = y
    ∧ cell_of (table t) "month" r = m
    ∧ cell_of (table t) "day" r = d
    ∧ cell_of (table t) "hour" r = h.

(** * Properties *)

(** ** Calendar: sanity examples *)

Example civil_epoch : civil_from_days 0 = (1970, 1, 1)%Z.
Proof. reflexivity. Qed.

Example civil_leap_day : civil_from_days 11016 = (2000, 2, 29)%Z.
Proof. reflexivity. Qed.

Example days_roundtrip_2018_11_01 :
  days_from_civil 2018 11 1 = 17836%Z ∧ civil_from_days 17836 = (2018, 11, 1)%Z.
Proof. split; reflexivity. Qed.

Example week_of_2018_11_01 :
  ts_weekofyear 0 1541105830796000 = 44%Z
  ∧ weekday_name (iso_weekday (local_day 0 1541105830796000)) = "Thu".
Proof. split; reflexivity. Qed.

Example week_of_2021_01_01 : ts_weekofyear 0 1609459200000000 = 53%Z.
Proof. reflexivity. Qed.

(** ** Column resolution and [withColumn] *)

Lemma positions_app name l l' i :
  positions name (l ++ l') i = positions name l i ++ positions name l' (i + length l).
Proof.
  revert i. induction l as [|c l IH]; intros i; simpl.
  - by rewrite Nat.add_0_r.
  - rewrite IH. replace (S i + length l) with (i + S (length l)) by lia.
    by destruct (decide (c = name)).
Qed.

Lemma positions_nil name cols i :
  positions name cols i = [] ↔ name ∉ cols.
Proof.
  revert i. induction cols as [|a l IH]; intros i; simpl.
  - split; [intros _; apply not_elem_of_nil | done].
  - rewrite not_elem_of_cons. destruct (decide (a = name)) as [->|Hne].
    + split; [done | intros [? _]; done].
    + rewrite IH. split; [done | by intros [_ ?]].
Qed.

Lemma columns_withColumn_at name c df :
  columns (DF.withColumn_at name c df) =
  if decide (name ∈ columns df) then columns df else columns df ++ [name].
Proof.
  unfold DF.withColumn_at.
  destruct (positions name (columns df) 0) eqn:E.
  - apply positions_nil in E. by rewrite decide_False.
  - rewrite decide_True; [done|]. destruct (decide (name ∈ columns df)) as [|Hn]; [done|].
    apply (positions_nil _ _ 0) in Hn. congruence.
Qed.

Lemma resolve_withColumn_other name other c df :
  name ≠ other →
  resolve other (columns (DF.withColumn name c df)) = resolve other (columns df).
Proof.
  intros Hne. unfold DF.withColumn. rewrite columns_withColumn_at.
  destruct (decide (name ∈ columns df)); [done|].
  unfold resolve. rewrite positions_app. simpl.
  rewrite decide_False by done. by rewrite app_nil_r.
Qed.

(** ** The monad *)

Lemma bind_raise {A B} (m : M A) (k : A → M B) w e :
  res (m w) = Raise e →
  bind m k w = mkOutcome (world (m w)) (events (m w)) (Raise e).
Proof. intros H. unfold bind. by rewrite H. Qed.

Lemma bind_ok {A B} (m : M A) (k : A → M B) w a :
  res (m w) = Ok a →
  bind m k w =
  mkOutcome (world (k a (world (m w)))) (events (m w) ++ events (k a (world (m w))))
            (res (k a (world (m w)))).
Proof. intros H. unfold bind. by rewrite H. Qed.

Lemma bind_inv_ok {A B} (m : M A) (k : A → M B) w b :
  res (bind m k w) = Ok b →
  ∃ a, res (m w) = Ok a ∧ res (k a (world (m w))) = Ok b.
Proof. unfold bind. destruct (res (m w)) eqn:E; simpl; [eauto | discriminate]. Qed.

Lemma lift_inv_ok {A} (m : result A) w a : res (lift m w) = Ok a → m = Ok a.
Proof. done. Qed.

Lemma rbind_inv_ok {A B} (m : result A) (k : A → result B) b :
  rbind m k = Ok b → ∃ a, m = Ok a ∧ k a = Ok b.
Proof. destruct m; simpl; [eauto | discriminate]. Qed.

Lemma bind_lift_inv_ok {A B} (m : result A) (k : A → M B) w b :
  res (bind (lift m) k w) = Ok b → ∃ a, m = Ok a ∧ res (k a w) = Ok b.
Proof. unfold bind, lift. destruct m; simpl; [eauto | discriminate]. Qed.

(** Runs a successful sequence of binds backwards: one equation per step. *)
Ltac run_inv H :=
  repeat (cbv beta zeta in H;
          first
            [ apply bind_lift_inv_ok in H as (? & ? & H)
            | apply bind_inv_ok in H as (? & ? & H)
            | apply rbind_inv_ok in H as (? & ? & H) ]).

(** Outcomes of the effectful primitives. *)

Lemma read_json_ok path w df :
  res (read_json path w) = Ok df →
  read_json path w = mkOutcome w [EvRead path] (Ok df)
  ∧ ∃ d, s3 w !! path = Some d ∧ df = table d.
Proof.
  unfold read_json. destruct (s3 w !! path) as [d|]; simpl; [|done].
  intros [= <-]. eauto.
Qed.

Lemma read_json_raise path w e :
  res (read_json path w) = Raise e →
  read_json path w = mkOutcome w [] (Raise e) ∧ s3 w !! path = None.
Proof.
  unfold read_json. destruct (s3 w !! path) as [d|]; simpl; [done|].
  by intros [= <-].
Qed.

Lemma write_overwrite_ok parts path df w u :
  res (write_parquet Overwrite parts path df w) = Ok u →
  write_parquet Overwrite parts path df w =
  mkOutcome {| s3 := <[path := mkDataset parts df]> (s3 w); views := views w |}
            [EvWrite Overwrite parts path df] (Ok u).
Proof.
  unfold write_parquet. destruct (resolve_all (columns df) parts); simpl; [|done].
  by destruct u.
Qed.

Lemma write_overwrite_raise parts path df w e :
  res (write_parquet Overwrite parts path df w) = Raise e →
  write_parquet Overwrite parts path df w = mkOutcome w [] (Raise e).
Proof.
  unfold write_parquet. destruct (resolve_all (columns df) parts); simpl; [done|].
  by intros [= <-].
Qed.

Lemma sql_select_all_ok name w df :
  res (sql_select_all name w) = Ok df →
  sql_select_all name w = mkOutcome w [EvQueryView name df] (Ok df)
  ∧ views w !! name = Some df.
Proof.
  unfold sql_select_all. destruct (views w !! name); simpl; [|done].
  by intros [= <-].
Qed.

Lemma sql_select_all_raise name w e :
  res (sql_select_all name w) = Raise e →
  sql_select_all name w = mkOutcome w [] (Raise e) ∧ views w !! name = None.
Proof.
  unfold sql_select_all. destruct (views w !! name); simpl; [done|].
  by intros [= <-].
Qed.

(** Runs a sequence of binds forwards: at each step, either the step
    succeeded and the run goes on, or it raised and the run stops there. *)
Ltac run_leaf E :=
  lazymatch type of E with
  | res (lift _ _) = _ => unfold lift in E; simpl in E
  | res (read_json _ _) = Ok _ =>
      let H := fresh "Hread" in
      destruct (read_json_ok _ _ _ E) as [-> H]
  | res (read_json _ _) = Raise _ =>
      let H := fresh "Hread" in
      destruct (read_json_raise _ _ _ E) as [-> H]
  | res (write_parquet Overwrite _ _ _ _) = Ok _ =>
      rewrite (write_overwrite_ok _ _ _ _ _ E)
  | res (write_parquet Overwrite _ _ _ _) = Raise _ =>
      rewrite (write_overwrite_raise _ _ _ _ _ E)
  | res (sql_select_all _ _) = Ok _ =>
      let H := fresh "Hview" in
      destruct (sql_select_all_ok _ _ _ E) as [-> H]
  | res (sql_select_all _ _) = Raise _ =>
      let H := fresh "Hview" in
      destruct (sql_select_all_raise _ _ _ E) as [-> H]
  | _ => idtac
  end.

Ltac run_step :=
  match goal with
  | |- context [bind ?m ?k ?w] =>
      let E := fresh "E" in
      destruct (res (m w)) eqn:E;
      [ rewrite (bind_ok m k w _ E) | rewrite (bind_raise m k w _ E) ];
      run_leaf E; cbv beta zeta; simpl world; simpl events; simpl res
  end.

(** ** Line 143 *)

Lemma line_143_raises df w :
  world (line_143 df w) = w ∧ events (line_143 df w) = [] ∧
  res (line_143 df w) =
    Raise (match getitem df "ts" with
           | Ok _ => not_callable line_143_callee
           | Raise e => e
           end).
Proof.
  unfold line_143, bind, lift. simpl.
  destruct (getitem df "ts"); simpl; done.
Qed.

Lemma getattr_ok df name c :
  getattr df name = Ok c ↔ ∃ i, resolve name (columns df) = Some i ∧ c = cell i.
Proof.
  unfold getattr. destruct (resolve name (columns df)).
  - split; [intros [= <-]; eauto | by intros (? & [= <-] & ->)].
  - split; [by destruct (decide _) | by intros (? & ? & _)].
Qed.

Lemma getitem_ok df name c :
  getitem df name = Ok c ↔ ∃ i, resolve name (columns df) = Some i ∧ c = cell i.
Proof.
  unfold getitem. destruct (resolve name (columns df)).
  - split; [intros [= <-]; eauto | by intros (? & [= <-] & ->)].
  - split; [done | by intros (? & ? & _)].
Qed.

(** When the head of the log pipeline succeeds, the frame it returns still
    has the [ts] column. *)
Lemma log_head_keeps_ts spark i o w df :
  res (log_head spark i o w) = Ok df → ∃ c, getitem df "ts" = Ok c.
Proof.
  intros H. unfold log_head in H. run_inv H.
  simpl in H. injection H as <-.
  unfold py_call, udf in *.
  repeat match goal with
         | H : Ok (PyColumn _) = Ok _ |- _ => injection H as <-
         end.
  simpl py_withColumn in *.
  repeat match goal with
         | H : Ok (DF.withColumn _ _ _) = Ok _ |- _ => injection H as <-
         end.
  match goal with
  | H : getattr _ "ts" = Ok _ |- _ => apply getattr_ok in H as (n & Hn & _)
  end.
  exists (cell n). apply getitem_ok. exists n. split; [|done].
  by rewrite !resolve_withColumn_other.
Qed.

(** The head performs at most two effects: the read of the events and the
    write of [users]. *)
Lemma log_head_events spark i o w :
  Forall (head_effect i o) (events (log_head spark i o w)).
Proof.
  unfold log_head. repeat run_step; simpl;
    repeat first [ apply Forall_nil_2 | apply Forall_cons_2 ];
    unfold head_effect; eauto.
Qed.

(** The log pipeline stops at line 143 with what its head has done. *)
Lemma process_log_data_outcome spark i o w :
  process_log_data spark i o w =
  mkOutcome (world (log_head spark i o w)) (events (log_head spark i o w))
    (Raise (match res (log_head spark i o w) with
            | Ok _ => not_callable line_143_callee
            | Raise e => e
            end)).
Proof.
  unfold process_log_data.
  destruct (res (log_head spark i o w)) as [df|e] eqn:E.
  - rewrite (bind_ok _ _ _ _ E).
    destruct (line_143_raises df (world (log_head spark i o w))) as (Hw & He & Hr).
    destruct (log_head_keeps_ts _ _ _ _ _ E) as [c Hc]. rewrite Hc in Hr.
    rewrite (bind_raise _ _ _ _ Hr), Hw, He. simpl. by rewrite app_nil_r.
  - by rewrite (bind_raise _ _ _ _ E).
Qed.

(** [C1], as amended.  For every session, input and world,
    [process_log_data] raises: it leaves the world and the effects of its
    head (lines 110-139: at most the read of the events and the write of
    [users]), so neither the [time] table, nor the view query, nor the
    [songplays] write is reached.  When the head succeeds, the exception is
    the [TypeError] of line 143, where the callee of the call is the string
    literal ['start_time'] (its argument being [df['ts']/1000]). *)
Theorem process_log_data_raises_at_line_143 spark i o w :
  let head := log_head spark i o w in
  let run := process_log_data spark i o w in
  world run = world head
  ∧ events run = events head
  ∧ Forall (head_effect i o) (events run)
  ∧ res run = Raise (match res head with
                     | Ok _ => not_callable line_143_callee
                     | Raise e => e
                     end)
  ∧ line_143_callee = PyStr "start_time"
  ∧ not_callable line_143_callee = TypeError "'str' object is not callable".
Proof.
  cbv zeta. rewrite process_log_data_outcome. simpl.
  split; [done|]. split; [done|]. split; [apply log_head_events|done].
Qed.

(** ** Comparison and join *)

Lemma sql_eq_same v w : v = w → v ≠ VNull → sql_eq v w = VBool true.
Proof.
  intros <- Hn. destruct v; try done; simpl; by rewrite bool_decide_eq_true_2.
Qed.

Lemma sql_eq_true v w :
  same_type v w → sql_eq v w = VBool true ↔ v = w ∧ v ≠ VNull.
Proof.
  intros Hty. split; [|intros [? ?]; by apply sql_eq_same].
  intros H. destruct v; try done; destruct w; try done; simpl in H;
    injection H as H; apply bool_decide_eq_true in H; by subst.
Qed.

Lemma sql_eq_str v s : sql_eq v (VStr s) = VBool true ↔ v = VStr s.
Proof.
  split; [|intros ->; by apply sql_eq_same].
  intros H. destruct v; try done; simpl in H;
    injection H as H; by apply bool_decide_eq_true in H.
Qed.

Lemma exact_match_join_match df song_df e s :
  exact_match df song_df e s → join_match df song_df e s.
Proof.
  intros ([H1 N1] & [H2 N2] & [H3 N3]).
  repeat split; by apply sql_eq_same.
Qed.

Lemma join_match_exact_match df song_df e s :
  same_type (cell_of df "song" e) (cell_of song_df "title" s) →
  same_type (cell_of df "artist" e) (cell_of song_df "artist_name" s) →
  same_type (cell_of df "length" e) (cell_of song_df "duration" s) →
  join_match df song_df e s → exact_match df song_df e s.
Proof.
  intros T1 T2 T3 (H1 & H2 & H3).
  apply sql_eq_true in H1; [|done]. apply sql_eq_true in H2; [|done].
  apply sql_eq_true in H3; [|done]. done.
Qed.

Lemma sql_and_true a b :
  sql_and a b = VBool true ↔ a = VBool true ∧ b = VBool true.
Proof.
  split.
  - destruct a as [|[]| | | |]; try done; destruct b as [|[]| | | |]; done.
  - by intros [-> ->].
Qed.

Lemma elem_of_join df other on l r :
  (l, r) ∈ jrows (JF.join df other on)
  ↔ l ∈ rows df ∧ r ∈ rows other ∧ on l r = VBool true.
Proof.
  simpl. rewrite list_elem_of_bind. split.
  - intros (x & Hin & Hx). apply list_elem_of_bind in Hin as (y & Hin & Hy).
    destruct (decide (on x y = VBool true)) as [Hon|]; [|by apply elem_of_nil in Hin].
    apply list_elem_of_singleton in Hin as [= -> ->]. done.
  - intros (Hl & Hr & Hon). exists l. split; [|done].
    apply list_elem_of_bind. exists r. split; [|done].
    rewrite decide_True by done. by apply list_elem_of_singleton.
Qed.

Lemma elem_of_join_distinct df other on p :
  p ∈ jrows (JF.distinct (JF.join df other on))
  ↔ p.1 ∈ rows df ∧ p.2 ∈ rows other ∧ on p.1 p.2 = VBool true.
Proof.
  destruct p as [l r]. unfold JF.distinct. simpl jrows at 1.
  rewrite elem_of_remove_dups. apply elem_of_join.
Qed.

Lemma songplays_join_spec df song_df j :
  songplays_join df song_df = Ok j →
  jleft j = columns df ∧ jright j = columns song_df
  ∧ ∀ e s, (e, s) ∈ jrows j
           ↔ e ∈ rows df ∧ s ∈ rows song_df ∧ join_match df song_df e s.
Proof.
  intros H. unfold songplays_join in H. run_inv H. injection H as <-.
  repeat match goal with
         | H : getattr _ _ = Ok _ |- _ => apply getattr_ok in H as (? & ? & ->)
         end.
  split; [done|]. split; [done|]. intros e s.
  rewrite (elem_of_join_distinct _ _ _ (e, s)). simpl.
  unfold jand, jeq, join_match, cell_of.
  rewrite !sql_and_true.
  repeat match goal with H : resolve _ _ = Some _ |- _ => rewrite H; clear H end.
  tauto.
Qed.

(** ** [select] on a joined frame and the id column *)

Lemma jresolve_all_length lcols rcols items fs :
  jresolve_all lcols rcols items = Ok fs → length fs = length items.
Proof.
  revert fs. induction items as [|s items IH]; intros fs H; simpl in H.
  - by injection H as <-.
  - run_inv H. injection H as <-. simpl. f_equal. by apply IH.
Qed.

Lemma jselect_spec items j t :
  JF.select items j = Ok t →
  ∃ fs, jresolve_all (jleft j) (jright j) items = Ok fs
        ∧ columns t = jsel_output <$> items
        ∧ rows t = (λ p, (λ f : row * row → value, f p) <$> fs) <$> jrows j.
Proof.
  intros H. unfold JF.select in H. run_inv H. injection H as <-. eauto.
Qed.

Lemma fit_id n (r : row) : length r = n → fit n r = r.
Proof. intros <-. unfold fit. apply take_app_length. Qed.

Lemma rows_withColumn_at_fresh name c df :
  name ∉ columns df →
  Forall (λ r, length r = length (columns df)) (rows df) →
  rows (DF.withColumn_at name c df) = imap (λ k r, r ++ [c k r]) (rows df).
Proof.
  intros Hn Hlen. unfold DF.withColumn_at.
  apply (positions_nil _ _ 0) in Hn. rewrite Hn. simpl.
  generalize 0. intros k0.
  assert (∀ (f g : nat → row → row) l,
             Forall (λ r, ∀ k, f k r = g k r) l → imap f l = imap g l) as Hext.
  { intros f g l. revert f g. induction l as [|x l IH]; intros f g Hfg; [done|].
    rewrite !imap_cons. inversion Hfg; subst. f_equal; [done|].
    apply IH. eapply Forall_impl; [done|]. intros r Hr k. apply Hr. }
  apply Hext. eapply Forall_impl; [done|]. intros r Hr k. simpl in Hr.
  by rewrite fit_id.
Qed.

Lemma Forall2_imap_fmap {A B C} (f : nat → B → C) (g : A → B) (l : list A) :
  Forall2 (λ c a, ∃ k, c = f k (g a)) (imap f (g <$> l)) l.
Proof.
  revert f. induction l as [|a l IH]; intros f; [constructor|].
  rewrite fmap_cons, imap_cons. constructor; [eauto|].
  eapply Forall2_impl; [apply IH|]. intros c a' [k ->]. by exists (S k).
Qed.

Lemma songplays_table_spec spark df song_df t :
  songplays_table spark df song_df = Ok t →
  ∃ j year month fs,
    songplays_join df song_df = Ok j
    ∧ getitem df "year" = Ok year ∧ getitem df "month" = Ok month
    ∧ jresolve_all (columns df) (columns song_df) (songplays_items year month) = Ok fs
    ∧ Forall2 (λ r p, ∃ k, r = ((λ f : row * row → value, f p) <$> fs)
                              ++ [VLong (monotonically_increasing_id spark k)])
              (rows t) (jrows j)
    ∧ columns t = (jsel_output <$> songplays_items year month) ++ ["songplay_id"]
    ∧ (∀ e s, (e, s) ∈ jrows j
              ↔ e ∈ rows df ∧ s ∈ rows song_df ∧ join_match df song_df e s).
Proof.
  intros H. unfold songplays_table in H. run_inv H. injection H as <-.
  rename x into j, x0 into year, x1 into month, x2 into selected.
  match goal with H : songplays_join _ _ = Ok _ |- _ =>
    destruct (songplays_join_spec _ _ _ H) as (Hl & Hr & Hj) end.
  match goal with H : JF.select _ _ = Ok _ |- _ =>
    destruct (jselect_spec _ _ _ H) as (fs & Hfs & Hcols & Hrows) end.
  rewrite Hl, Hr in Hfs.
  exists j, year, month, fs.
  split; [done|]. split; [done|]. split; [done|]. split; [done|].
  assert ("songplay_id" ∉ columns selected) as Hfresh.
  { rewrite Hcols. simpl. rewrite list_elem_of_In. simpl. intuition discriminate. }
  split; [|split; [|exact Hj]].
  - rewrite rows_withColumn_at_fresh.
    + rewrite Hrows. apply (Forall2_imap_fmap
        (λ k r, r ++ [VLong (monotonically_increasing_id spark k)])).
    + done.
    + rewrite Hrows, Hcols, Forall_fmap. apply Forall_forall. intros p _. simpl.
      rewrite length_fmap. by rewrite (jresolve_all_length _ _ _ _ Hfs).
  - rewrite columns_withColumn_at, decide_False by done. by rewrite Hcols.
Qed.


(** ** The song pipeline *)

(** What a successful run of the song pipeline read, computed and left. *)
Lemma process_song_data_ok spark i o w :
  res (process_song_data spark i o w) = Ok () →
  ∃ d songs view artists,
    s3 w !! (i +:+ "song_data/*/*/*/*.json") = Some d
    ∧ DF.select songs_items (table d) = Ok songs
    ∧ DF.select view_items (table d) = Ok view
    ∧ DF.select artists_items (table d) = Ok artists
    ∧ process_song_data spark i o w =
      mkOutcome
        {| s3 := <[o +:+ "artists" := mkDataset [] (DF.distinct artists)]>
                   (<[o +:+ "songs" := mkDataset ["year"; "artist_id"] (DF.distinct songs)]>
                      (s3 w));
           views := <[songs_table_view := DF.distinct view]> (views w) |}
        [EvRead (i +:+ "song_data/*/*/*/*.json");
         EvRegisterView songs_table_view (DF.distinct view);
         EvWrite Overwrite ["year"; "artist_id"] (o +:+ "songs") (DF.distinct songs);
         EvWrite Overwrite [] (o +:+ "artists") (DF.distinct artists)]
        (Ok ()).
Proof.
  unfold process_song_data. repeat run_step; try discriminate.
  intros _. destruct Hread as (d & Hd & ->).
  by exists d, a0, a1, a3.
Qed.

(** ** [select] on a frame *)

Lemma select_spec items df t :
  DF.select items df = Ok t →
  ∃ ixs, resolve_all (columns df) (sel_source <$> items) = Ok ixs
         ∧ columns t = sel_output <$> items
         ∧ rows t = (λ r, (λ i, cell i r) <$> ixs) <$> rows df.
Proof.
  intros H. unfold DF.select in H. run_inv H. injection H as <-. eauto.
Qed.

Lemma resolve_all_cons cols name names ixs :
  resolve_all cols (name :: names) = Ok ixs →
  ∃ i rest, resolve name cols = Some i ∧ resolve_all cols names = Ok rest
            ∧ ixs = i :: rest.
Proof.
  simpl. destruct (resolve name cols) as [i|]; [|done].
  intros H. run_inv H. injection H as <-. eauto.
Qed.

Ltac resolve_inv :=
  repeat match goal with
         | H : resolve_all _ (_ :: _) = Ok _ |- _ =>
             apply resolve_all_cons in H as (? & ? & ? & H & ->)
         | H : resolve_all _ [] = Ok _ |- _ => injection H as <-
         | H : resolve_all _ (_ <$> _) = Ok _ |- _ => simpl in H
         end.

(** ** The tail of the log pipeline *)

Lemma append_inj_r (o a b : string) : o +:+ a = o +:+ b → a = b.
Proof. induction o as [|c o IH]; simpl; [done|]. intros [= H]. by apply IH. Qed.

(** What a successful run of lines 144-176 read, computed and left. *)
Lemma log_tail_ok spark o df w :
  res (log_tail spark o df w) = Ok () →
  ∃ dfc time song_df songplays,
    calendar_columns (timeZone spark) df = Ok dfc
    ∧ DF.select time_items dfc = Ok time
    ∧ views w !! songs_table_view = Some song_df
    ∧ songplays_table spark dfc song_df = Ok songplays
    ∧ log_tail spark o df w =
      mkOutcome
        {| s3 := <[o +:+ "songplays" := mkDataset ["year"; "month"] songplays]>
                   (<[o +:+ "time" := mkDataset ["year"; "month"] (DF.distinct time)]>
                      (s3 w));
           views := <["log_view" := dfc]> (views w) |}
        [EvRegisterView "log_view" dfc;
         EvWrite Overwrite ["year"; "month"] (o +:+ "time") (DF.distinct time);
         EvQueryView songs_table_view song_df;
         EvWrite Overwrite ["year"; "month"] (o +:+ "songplays") songplays]
        (Ok ()).
Proof.
  unfold log_tail. repeat run_step; try discriminate.
  intros Hw. rewrite (write_overwrite_ok _ _ _ _ _ Hw).
  simpl in Hview. rewrite lookup_insert_ne in Hview by done.
  by exists a, a0, a2, a3.
Qed.

(** ** Foreign keys of [songplays] *)

Lemma Forall2_elem_of_l {A B} (P : A → B → Prop) (l : list A) (k : list B) x :
  Forall2 P l k → x ∈ l → ∃ y, y ∈ k ∧ P x y.
Proof.
  intros HF Hx. apply list_elem_of_lookup in Hx as [i Hi].
  destruct (Forall2_lookup_l _ _ _ _ _ HF Hi) as (y & Hy & HP).
  exists y. split; [|done]. apply list_elem_of_lookup. eauto.
Qed.

Lemma jresolve_all_lookup lcols rcols items fs k s :
  jresolve_all lcols rcols items = Ok fs → items !! k = Some s →
  ∃ f, fs !! k = Some f ∧ jresolve lcols rcols s = Ok f.
Proof.
  revert fs k. induction items as [|s' items IH]; intros fs k H Hk; [done|].
  simpl in H. run_inv H. injection H as <-.
  destruct k as [|k]; simpl in *.
  - injection Hk as <-. eauto.
  - eauto.
Qed.

(** A name carried by exactly one column of the right frame, when it
    resolves in the joined frame, reads that column of the right row. *)
Lemma jresolve_right lcols rcols name i f :
  positions name rcols 0 = [i] →
  jresolve lcols rcols (JName name) = Ok f →
  ∀ p, f p = cell i p.2.
Proof.
  intros Hr H. simpl in H. rewrite Hr in H.
  destruct (positions name lcols 0) as [|? [|]]; try discriminate.
  by injection H as <-.
Qed.

Lemma cell_fmap_lookup (ixs : list nat) (r : row) k i :
  ixs !! k = Some i → cell k ((λ i, cell i r) <$> ixs) = cell i r.
Proof. intros H. unfold cell. by rewrite list_lookup_fmap, H. Qed.

(** The [songplays] rows take [song_id] and [artist_id] from a row of the
    songs view. *)
Lemma songplays_keys_from_view spark df view t r :
  columns view = sel_output <$> view_items →
  songplays_table spark df view = Ok t →
  r ∈ rows t →
  ∃ s, s ∈ rows view
       ∧ cell_of t "song_id" r = cell 0 s
       ∧ cell_of t "artist_id" r = cell 2 s.
Proof.
  intros Hview H Hr.
  destruct (songplays_table_spec _ _ _ _ H)
    as (j & year & month & fs & Hjoin & Hy & Hm & Hfs & Hrows & Hcols & Hj).
  destruct (Forall2_elem_of_l _ _ _ _ Hrows Hr) as ([e s] & Hp & k & ->).
  apply Hj in Hp as (_ & Hs & _).
  exists s. split; [done|].
  destruct (jresolve_all_lookup _ _ _ _ 3 (JName "song_id") Hfs eq_refl)
    as (f3 & Hf3 & Hres3).
  destruct (jresolve_all_lookup _ _ _ _ 4 (JName "artist_id") Hfs eq_refl)
    as (f4 & Hf4 & Hres4).
  rewrite Hview in Hres3, Hres4.
  pose proof (jresolve_right (columns df) (sel_output <$> view_items)
                "song_id" 0 f3 eq_refl Hres3 (e, s)) as H3.
  pose proof (jresolve_right (columns df) (sel_output <$> view_items)
                "artist_id" 2 f4 eq_refl Hres4 (e, s)) as H4.
  pose proof (jresolve_all_length _ _ _ _ Hfs) as Hlen. simpl in Hlen.
  unfold cell_of. rewrite Hcols.
  change (resolve "song_id" _) with (Some 3).
  change (resolve "artist_id" _) with (Some 4).
  unfold cell at 1 3.
  rewrite !lookup_app_l by (rewrite length_fmap, Hlen; lia).
  rewrite !list_lookup_fmap, Hf3, Hf4. simpl. by rewrite H3, H4.
Qed.

(** Every row of the songs view has its [song_id] in the [songs] table and
    its [artist_id] in the [artists] table taken from the same frame. *)
Lemma view_keys_in_dimensions df songs view artists s :
  DF.select songs_items df = Ok songs →
  DF.select view_items df = Ok view →
  DF.select artists_items df = Ok artists →
  s ∈ rows (DF.distinct view) →
  cell 0 s ∈ (cell_of (DF.distinct songs) "song_id" <$> rows (DF.distinct songs))
  ∧ cell 2 s ∈ (cell_of (DF.distinct artists) "artist_id"
                  <$> rows (DF.distinct artists)).
Proof.
  intros Hsongs Hview Hartists Hs.
  apply select_spec in Hsongs as (isg & His & Hcs & Hrs).
  apply select_spec in Hview as (iv & Hiv & Hcv & Hrv).
  apply select_spec in Hartists as (ia & Hia & Hca & Hra).
  change (sel_source <$> songs_items)
    with ["song_id"; "title"; "artist_id"; "year"; "duration"] in His.
  change (sel_source <$> view_items)
    with ["song_id"; "title"; "artist_id"; "year"; "duration"; "artist_name"] in Hiv.
  change (sel_source <$> artists_items)
    with ["artist_id"; "artist_name"; "artist_location"; "artist_latitude";
          "artist_longitude"] in Hia.
  resolve_inv.
  repeat match goal with
         | H1 : resolve ?n ?c = Some ?a, H2 : resolve ?n ?c = Some ?b |- _ =>
             rewrite H1 in H2; injection H2 as <-
         end.
  simpl in Hs. rewrite elem_of_remove_dups, Hrv in Hs.
  apply list_elem_of_fmap in Hs as (x & -> & Hx).
  unfold cell_of. simpl columns. rewrite Hcs, Hca.
  change (resolve "song_id" _) with (Some 0).
  change (resolve "artist_id" _) with (Some 0).
  split.
  - apply list_elem_of_fmap. eexists. split; [|apply elem_of_remove_dups;
      rewrite Hrs; apply list_elem_of_fmap_2, Hx]. reflexivity.
  - apply list_elem_of_fmap. eexists. split; [|apply elem_of_remove_dups;
      rewrite Hra; apply list_elem_of_fmap_2, Hx]. reflexivity.
Qed.

(** [C3].  When the song pipeline and then lines 144-176 of the log pipeline
    run to the end on the same output location, every row of the stored
    [songplays] table has its [song_id] in some row of the stored [songs]
    table and its [artist_id] in some row of the stored [artists] table. *)
Theorem songplays_reference_dimensions spark i o w df :
  let song_run := process_song_data spark i o w in
  let log_run := log_tail spark o df (world song_run) in
  res song_run = Ok () →
  res log_run = Ok () →
  ∃ songs artists songplays,
    s3 (world log_run) !! (o +:+ "songs") = Some songs
    ∧ s3 (world log_run) !! (o +:+ "artists") = Some artists
    ∧ s3 (world log_run) !! (o +:+ "songplays") = Some songplays
    ∧ ∀ r, r ∈ rows (table songplays) →
        cell_of (table songplays) "song_id" r
          ∈ (cell_of (table songs) "song_id" <$> rows (table songs))
        ∧ cell_of (table songplays) "artist_id" r
          ∈ (cell_of (table artists) "artist_id" <$> rows (table artists)).
Proof.
  intros song_run log_run Hsong Hlog. subst song_run log_run.
  destruct (process_song_data_ok _ _ _ _ Hsong)
    as (d & songs & view & artists & Hd & Hsongs & Hview & Hartists & Hrun).
  rewrite Hrun in Hlog |- *. simpl world in *.
  destruct (log_tail_ok _ _ _ _ Hlog)
    as (dfc & time & song_df & sp & Hcal & Htime & Hv & Hsp & Htail).
  rewrite Htail. simpl in Hv |- *.
  rewrite lookup_insert_eq in Hv. injection Hv as <-.
  assert (∀ a b : string, a ≠ b → o +:+ a ≠ o +:+ b) as Hne.
  { intros a b Hab Heq. by apply Hab, (append_inj_r o). }
  exists (mkDataset ["year"; "artist_id"] (DF.distinct songs)),
         (mkDataset [] (DF.distinct artists)),
         (mkDataset ["year"; "month"] sp).
  split; [|split; [|split]].
  - rewrite !lookup_insert_ne by (by apply Hne). apply lookup_insert_eq.
  - rewrite !lookup_insert_ne by (by apply Hne). apply lookup_insert_eq.
  - apply lookup_insert_eq.
  - intros r Hr. simpl table in *.
    assert (columns (DF.distinct view) = sel_output <$> view_items) as Hcols.
    { simpl. by apply select_spec in Hview as (? & _ & -> & _). }
    destruct (songplays_keys_from_view _ _ _ _ _ Hcols Hsp Hr) as (s & Hs & -> & ->).
    by apply (view_keys_in_dimensions (table d) songs view artists).
Qed.

(** ** The end-to-end example *)

(** [C5], the code on the example.  With the two records of the example and
    the other fields the pipelines select present (null), the job stops in
    the log pipeline with the [TypeError] of line 143 and stores no
    [songplays] table, so no row with song_id "S1", artist_id "A1", year 2018
    and month 11.  With exactly the fields the example lists it stops even
    earlier, at the [select] of line 83, whose [artist_location] the song
    record does not have. *)
Lemma example_run_stores_no_songplays :
  res (main Sample.session Sample.world_exact)
    = Raise (AnalysisException "artist_location")
  ∧ res (main Sample.session Sample.world_full)
    = Raise (TypeError "'str' object is not callable")
  ∧ ¬ has_example_row (world (main Sample.session Sample.world_exact))
  ∧ ¬ has_example_row (world (main Sample.session Sample.world_full)).
Proof.
  assert (s3 (world (main Sample.session Sample.world_exact))
            !! (output_data +:+ "songplays") = None) as H1 by (vm_compute; reflexivity).
  assert (s3 (world (main Sample.session Sample.world_full))
            !! (output_data +:+ "songplays") = None) as H2 by (vm_compute; reflexivity).
  split; [vm_compute; reflexivity|]. split; [vm_compute; reflexivity|].
  split; intros (sp & r & Hsp & _); congruence.
Qed.

(** What the example expects is what the rest of the pipeline computes from
    a frame that has [start_time].  With the fields the pipelines select
    present (null where the example gives none) and the session in UTC:
    after the song pipeline and the head of the log pipeline, lines 144-176
    applied to the event with the instant of its [ts] as [start_time] run to
    the end and store a [songplays] table with a row of song_id "S1",
    artist_id "A1", year 2018 and month 11. *)
Lemma example_songplays_row :
  let tail := log_tail Sample.session output_data Sample.timed_events
                (world Sample.head_run) in
  res Sample.head_run = Ok (mkDataFrame (columns Sample.timed_events)
                              [[VStr "Y"; VNull; VNull; VNull;
                                VDouble Sample.ten_and_a_half; VNull; VNull;
                                VStr "NextSong"; VNull; VStr "X";
                                VLong 1541105830796; VNull; VStr "10"; VNull; VNull]])
  ∧ res tail = Ok () ∧ has_example_row (world tail).
Proof.
  cbv zeta. split; [vm_compute; reflexivity|].
  split; [vm_compute; reflexivity|].
  unfold has_example_row. eexists _, _.
  split; [vm_compute; reflexivity|].
  split; [apply list_elem_of_here|].
  repeat split; vm_compute; reflexivity.
Qed.

(** ** Deduplication of the [artists] table *)

(** [C6], counterexample.  Two song records of one artist credited under
    two names: the stored [artists] table has two rows with the same
    [artist_id]. *)
Lemma artist_id_is_not_unique :
  ∃ artists,
    s3 (world (process_song_data Sample.session input_data output_data
                 Sample.world_two_names))
      !! (output_data +:+ "artists") = Some artists
    ∧ ¬ unique_on ["artist_id"] (table artists).
Proof.
  eexists. split; [vm_compute; reflexivity|].
  intros H. specialize (H 0 1 _ _ eq_refl eq_refl).
  discriminate H. intros c Hc. apply list_elem_of_singleton in Hc as ->.
  reflexivity.
Qed.

(** [C6], as amended.  After a successful run of the song pipeline, no two
    rows of the stored [artists] table at different positions are the same
    row, nor agree on all five columns (artist_id, artist_name,
    artist_location, artist_latitude, artist_longitude): rows that share an
    [artist_id] differ in another column. *)
Theorem artists_rows_are_distinct spark i o w :
  res (process_song_data spark i o w) = Ok () →
  ∃ artists,
    s3 (world (process_song_data spark i o w)) !! (o +:+ "artists") = Some artists
    ∧ columns (table artists)
      = ["artist_id"; "artist_name"; "artist_location"; "artist_latitude";
         "artist_longitude"]
    ∧ NoDup (rows (table artists))
    ∧ unique_on (columns (table artists)) (table artists).
Proof.
  intros H.
  destruct (process_song_data_ok _ _ _ _ H)
    as (d & songs & view & artists & Hd & Hsongs & Hview & Hartists & ->).
  exists (mkDataset [] (DF.distinct artists)).
  split; [apply lookup_insert_eq|].
  apply select_spec in Hartists as (ia & Hia & Hca & Hra).
  change (sel_source <$> artists_items)
    with ["artist_id"; "artist_name"; "artist_location"; "artist_latitude";
          "artist_longitude"] in Hia.
  resolve_inv. simpl table. simpl columns. rewrite Hca.
  split; [done|]. split; [apply NoDup_remove_dups|].
  intros k1 k2 r1 r2 Hk1 Hk2 Hall.
  eapply NoDup_lookup; [apply (NoDup_remove_dups (rows artists))|exact Hk1|].
  simpl in Hk1, Hk2. rewrite Hk2. f_equal.
  apply list_elem_of_lookup_2 in Hk1, Hk2.
  rewrite elem_of_remove_dups, Hra in Hk1, Hk2.
  apply list_elem_of_fmap in Hk1 as (y1 & -> & _).
  apply list_elem_of_fmap in Hk2 as (y2 & -> & _).
  assert (∀ c, In c ["artist_id"; "artist_name"; "artist_location";
                      "artist_latitude"; "artist_longitude"] →
               cell_of (DF.distinct artists) c
                 ((λ i, cell i y1) <$> [x; x1; x0; x2; x3])
               = cell_of (DF.distinct artists) c
                   ((λ i, cell i y2) <$> [x; x1; x0; x2; x3])) as Hall'.
  { intros c Hc. apply Hall. by apply list_elem_of_In. }
  pose proof (Hall' "artist_id" ltac:(simpl; tauto)) as E0.
  pose proof (Hall' "artist_name" ltac:(simpl; tauto)) as E1.
  pose proof (Hall' "artist_location" ltac:(simpl; tauto)) as E2.
  pose proof (Hall' "artist_latitude" ltac:(simpl; tauto)) as E3.
  pose proof (Hall' "artist_longitude" ltac:(simpl; tauto)) as E4.
  unfold cell_of in E0, E1, E2, E3, E4. simpl columns in *. rewrite Hca in *.
  change (resolve "artist_id" _) with (Some 0) in E0.
  change (resolve "artist_name" _) with (Some 1) in E1.
  change (resolve "artist_location" _) with (Some 2) in E2.
  change (resolve "artist_latitude" _) with (Some 3) in E3.
  change (resolve "artist_longitude" _) with (Some 4) in E4.
  unfold cell in *. simpl in E0, E1, E2, E3, E4 |- *. congruence.
Qed.

(** ** The first [select] of the log pipeline *)

(** Two [select]s over the same source columns of a frame fail together,
    with the same exception. *)
Lemma select_raise_same_sources items items' df e :
  sel_source <$> items = sel_source <$> items' →
  DF.select items df = Raise e → DF.select items' df = Raise e.
Proof.
  intros Hsrc. unfold DF.select. rewrite Hsrc.
  by destruct (resolve_all (columns df) (sel_source <$> items')).
Qed.

Lemma log_head_without_line_121_eq spark i o w :
  log_head_without_line_121 spark i o w = log_head spark i o w.
Proof.
  unfold log_head_without_line_121, log_head.
  repeat run_step;
    repeat match goal with
           | H : DF.select (SName "userId" :: ?rest) ?df = Raise ?e |- _ =>
               apply (select_raise_same_sources (SName "userId" :: rest)
                        [SAlias "userId" "user_id"; SAlias "firstName" "first_name";
                         SAlias "lastName" "last_name"; SName "gender"; SName "level"]
                        df e eq_refl) in H
           end;
    repeat match goal with
           | H : Ok _ = Ok _ |- _ => injection H as ->
           | H : Raise _ = Raise _ |- _ => injection H as ->
           | H1 : ?x = Ok _, H2 : ?x = Ok _ |- _ =>
               rewrite H1 in H2; injection H2 as <-
           | H1 : ?x = Ok _, H2 : ?x = Raise _ |- _ =>
               rewrite H1 in H2; discriminate H2
           | H1 : ?x = Raise _, H2 : ?x = Raise _ |- _ =>
               rewrite H1 in H2; injection H2 as <-
           end;
    try done.
Qed.

(** [C10].  The [select] of line 121, bound to [artists_table], is dead:
    for every session, input and world, the log pipeline without it leaves
    the same world (so the same [users], [time] and [songplays] outputs),
    performs the same effects and ends with the same result. *)
Theorem line_121_is_dead spark i o w :
  process_log_data_without_line_121 spark i o w = process_log_data spark i o w.
Proof.
  unfold process_log_data_without_line_121, process_log_data, bind.
  by rewrite log_head_without_line_121_eq.
Qed.

(** ** Composition rules *)

Section Composition.
Context {A B : Type}.
Implicit Types (m : M A) (k : A → M B) (P : Event → Prop).

Lemma replay_app evs evs' s :
  replay (evs ++ evs') s = replay evs' (replay evs s).
Proof. apply foldl_app. Qed.

Lemma tracked_bind m k : tracked m → (∀ a, tracked (k a)) → tracked (bind m k).
Proof.
  intros Hm Hk w. unfold bind. destruct (res (m w)) as [a|e]; simpl.
  - by rewrite Hk, replay_app, Hm.
  - apply Hm.
Qed.

Lemma effects_bind P m k :
  effects_in P m → (∀ a, effects_in P (k a)) → effects_in P (bind m k).
Proof.
  intros Hm Hk w. unfold bind. destruct (res (m w)) as [a|e]; simpl.
  - apply Forall_app. split; [apply Hm | apply Hk].
  - apply Hm.
Qed.

Lemma reads_bind paths m k :
  reads_only paths m → (∀ a, reads_only paths (k a)) → reads_only paths (bind m k).
Proof.
  intros Hm Hk w w' Hag. unfold bind.
  destruct (Hm w w' Hag) as (He & Hr & Hag'). rewrite <- Hr, <- He.
  destruct (res (m w)) as [a|e]; simpl; [|done].
  destruct (Hk a _ _ Hag') as (He' & Hr' & Hag''). by rewrite He', Hr'.
Qed.
End Composition.

Section Primitives.
Context {A : Type}.
Implicit Types (P : Event → Prop) (paths : list string).

Lemma tracked_ret (a : A) : tracked (ret a).
Proof. done. Qed.
Lemma tracked_lift (r : result A) : tracked (lift r).
Proof. done. Qed.
Lemma effects_ret P (a : A) : effects_in P (ret a).
Proof. intros w. apply Forall_nil_2. Qed.
Lemma effects_lift P (r : result A) : effects_in P (lift r).
Proof. intros w. apply Forall_nil_2. Qed.
Lemma reads_ret paths (a : A) : reads_only paths (ret a).
Proof. by intros w w' Hag. Qed.
Lemma reads_lift paths (r : result A) : reads_only paths (lift r).
Proof. by intros w w' Hag. Qed.
End Primitives.

Lemma tracked_read_json path : tracked (read_json path).
Proof. intros w. unfold read_json. by destruct (s3 w !! path). Qed.

Lemma tracked_write_parquet mode parts path df :
  tracked (write_parquet mode parts path df).
Proof.
  intros w. unfold write_parquet.
  destruct (resolve_all (columns df) parts); [|done].
  destruct (save mode (s3 w !! path) _) eqn:E; [|done].
  simpl. unfold replay. simpl. by rewrite E.
Qed.

Lemma tracked_createOrReplaceTempView name df :
  tracked (createOrReplaceTempView name df).
Proof. done. Qed.

Lemma tracked_sql_select_all name : tracked (sql_select_all name).
Proof. intros w. unfold sql_select_all. by destruct (views w !! name). Qed.

Lemma effects_read_json P path : P (EvRead path) → effects_in P (read_json path).
Proof.
  intros HP w. unfold read_json.
  destruct (s3 w !! path); simpl; [by apply Forall_singleton | apply Forall_nil_2].
Qed.

Lemma effects_write_parquet P mode parts path df :
  P (EvWrite mode parts path df) → effects_in P (write_parquet mode parts path df).
Proof.
  intros HP w. unfold write_parquet.
  destruct (resolve_all (columns df) parts); [|apply Forall_nil_2].
  destruct (save mode (s3 w !! path) _); simpl;
    [by apply Forall_singleton | apply Forall_nil_2].
Qed.

Lemma effects_createOrReplaceTempView P name df :
  P (EvRegisterView name df) → effects_in P (createOrReplaceTempView name df).
Proof. intros HP w. by apply Forall_singleton. Qed.

Lemma effects_sql_select_all P name :
  (∀ df, P (EvQueryView name df)) → effects_in P (sql_select_all name).
Proof.
  intros HP w. unfold sql_select_all.
  destruct (views w !! name); simpl; [by apply Forall_singleton | apply Forall_nil_2].
Qed.

Lemma reads_read_json paths path : path ∈ paths → reads_only paths (read_json path).
Proof.
  intros Hin w w' [Hs Hv]. unfold read_json. rewrite <- (Hs _ Hin).
  by destruct (s3 w !! path).
Qed.

Lemma reads_write_overwrite paths parts path df :
  reads_only paths (write_parquet Overwrite parts path df).
Proof.
  intros w w' [Hs Hv]. unfold write_parquet.
  destruct (resolve_all (columns df) parts); [|done]. simpl.
  split; [done|]. split; [done|]. split; [|done].
  intros p Hp. simpl. rewrite !lookup_insert. case_decide; [done|by apply Hs].
Qed.

Lemma reads_createOrReplaceTempView paths name df :
  reads_only paths (createOrReplaceTempView name df).
Proof.
  intros w w' [Hs Hv]. simpl. split; [done|]. split; [done|].
  split; [done|]. simpl. by rewrite Hv.
Qed.

Lemma reads_sql_select_all paths name : reads_only paths (sql_select_all name).
Proof.
  intros w w' [Hs Hv]. unfold sql_select_all. rewrite <- Hv.
  by destruct (views w !! name).
Qed.

(** Decomposes a pipeline along its binds, down to the primitives. *)
Ltac compose_tracked :=
  repeat (cbv beta zeta;
          first [ apply tracked_bind; [|intros ?]
                | apply tracked_ret | apply tracked_lift | apply tracked_read_json
                | apply tracked_write_parquet
                | apply tracked_createOrReplaceTempView
                | apply tracked_sql_select_all ]).

Ltac compose_reads :=
  repeat (cbv beta zeta;
          first [ apply reads_bind; [|intros ?]
                | apply reads_ret | apply reads_lift
                | apply reads_write_overwrite
                | apply reads_createOrReplaceTempView
                | apply reads_sql_select_all
                | apply reads_read_json ]).

Ltac compose_effects :=
  repeat (cbv beta zeta;
          first [ apply effects_bind; [|intros ?]
                | apply effects_ret | apply effects_lift
                | apply effects_read_json
                | apply effects_write_parquet
                | apply effects_createOrReplaceTempView
                | apply effects_sql_select_all; intros ? ]).

Lemma tracked_process_song_data spark i o : tracked (process_song_data spark i o).
Proof. unfold process_song_data. compose_tracked. Qed.

Lemma tracked_log_tail spark o df : tracked (log_tail spark o df).
Proof. unfold log_tail. compose_tracked. Qed.

Lemma tracked_process_log_data spark i o : tracked (process_log_data spark i o).
Proof.
  unfold process_log_data, log_head, line_143. compose_tracked.
Qed.

Lemma tracked_main session : tracked (main session).
Proof.
  unfold main, create_spark_session. compose_tracked.
Qed.

Lemma reads_main session :
  reads_only [input_data +:+ "song_data/*/*/*/*.json";
              input_data +:+ "log_data/*/*/*.json"] (main session).
Proof.
  unfold main, create_spark_session, process_song_data, process_log_data,
    log_head, line_143.
  compose_reads; rewrite list_elem_of_In; simpl; tauto.
Qed.

Lemma effects_process_song_data spark i o :
  effects_in (write_as_specified o) (process_song_data spark i o).
Proof. unfold process_song_data. compose_effects; simpl; tauto. Qed.

Lemma effects_log_tail spark o df :
  effects_in (write_as_specified o) (log_tail spark o df).
Proof. unfold log_tail. compose_effects; simpl; tauto. Qed.

Lemma effects_process_log_data spark i o :
  effects_in (write_as_specified o) (process_log_data spark i o).
Proof.
  unfold process_log_data, log_head, line_143. compose_effects; simpl; tauto.
Qed.

Lemma effects_main session :
  effects_in (write_as_specified output_data) (main session).
Proof.
  unfold main, create_spark_session. compose_effects; simpl; tauto.
Qed.

(** ** Replaying overwrite-mode writes *)

Lemma last_write_snoc p evs ev :
  last_write p (evs ++ [ev]) =
  match ev with
  | EvWrite _ parts path df =>
      if decide (path = p) then Some (mkDataset parts df) else last_write p evs
  | _ => last_write p evs
  end.
Proof. unfold last_write. by rewrite foldl_app. Qed.

Lemma replay_snoc evs ev s : replay (evs ++ [ev]) s = replay_event (replay evs s) ev.
Proof. unfold replay. by rewrite foldl_app. Qed.

(** After overwrite-mode writes, a path holds what was last written under
    it, or what it held before. *)
Lemma lookup_replay evs s p :
  Forall overwrites evs →
  replay evs s !! p = match last_write p evs with
                      | Some d => Some d
                      | None => s !! p
                      end.
Proof.
  induction evs as [|ev evs IH] using rev_ind; intros Hall; [done|].
  apply Forall_app in Hall as [Hevs Hev]. rewrite Forall_singleton in Hev.
  rewrite replay_snoc, last_write_snoc.
  destruct ev as [|mode parts path df| |]; simpl; try by apply IH.
  unfold overwrites in Hev. rewrite Hev. simpl.
  rewrite lookup_insert. case_decide; [done|]. by apply IH.
Qed.

Lemma replay_idempotent evs s :
  Forall overwrites evs → replay evs (replay evs s) = replay evs s.
Proof.
  intros Hall. apply map_eq. intros p. rewrite !lookup_replay by done.
  by destruct (last_write p evs).
Qed.

(** Writes that all go elsewhere leave a path as it was. *)
Lemma last_write_none p evs :
  Forall (λ ev, match ev with EvWrite _ _ path _ => path ≠ p | _ => True end) evs →
  last_write p evs = None.
Proof.
  induction evs as [|ev evs IH] using rev_ind; intros Hall; [done|].
  apply Forall_app in Hall as [Hevs Hev]. rewrite Forall_singleton in Hev.
  rewrite last_write_snoc. destruct ev; try by apply IH.
  rewrite decide_False by done. by apply IH.
Qed.

(** A run of [main] only overwrites, and never under its two input paths. *)
Lemma main_writes session w :
  Forall overwrites (events (main session w))
  ∧ ∀ p, p ∈ [input_data +:+ "song_data/*/*/*/*.json";
              input_data +:+ "log_data/*/*/*.json"] →
         last_write p (events (main session w)) = None.
Proof.
  pose proof (effects_main session w) as H. split.
  - eapply Forall_impl; [exact H|]. intros [] Hev; simpl in *; tauto.
  - intros p Hp. apply last_write_none.
    eapply Forall_impl; [exact H|]. intros [|mode parts path df| |] Hev; try done.
    simpl in Hev. destruct Hev as [_ Hpath].
    apply list_elem_of_In in Hp. simpl in Hp.
    intros ->. vm_compute in Hpath, Hp.
    intuition (try discriminate; try congruence).
Qed.

(** ** Modes and partitions of the writes *)

(** [C9].  Every write the song pipeline, the log pipeline and lines 144-176
    of the log pipeline perform, from any world, is in overwrite mode, with
    [songs] partitioned by (year, artist_id), [artists] and [users]
    unpartitioned, [time] and [songplays] partitioned by (year, month); on
    the sample records the five writes occur as listed. *)
Theorem writes_overwrite_and_partitioned spark i o w df :
  Forall (write_as_specified o) (events (process_song_data spark i o w))
  ∧ Forall (write_as_specified o) (events (process_log_data spark i o w))
  ∧ Forall (write_as_specified o) (events (log_tail spark o df w))
  ∧ omap write_summary
      (events (process_song_data Sample.session input_data output_data
                 Sample.world_full))
    = [(Overwrite, ["year"; "artist_id"], output_data +:+ "songs");
       (Overwrite, [], output_data +:+ "artists")]
  ∧ omap write_summary (events Sample.head_run)
    = [(Overwrite, [], output_data +:+ "users")]
  ∧ omap write_summary
      (events (log_tail Sample.session output_data Sample.timed_events
                 (world Sample.head_run)))
    = [(Overwrite, ["year"; "month"], output_data +:+ "time");
       (Overwrite, ["year"; "month"], output_data +:+ "songplays")].
Proof.
  split; [apply effects_process_song_data|].
  split; [apply effects_process_log_data|].
  split; [apply effects_log_tail|].
  repeat split; vm_compute; reflexivity.
Qed.

(** ** The songs view: written once, then read *)

Lemma log_head_keeps_views spark i o w :
  views (world (log_head spark i o w)) = views w.
Proof. unfold log_head. repeat run_step; done. Qed.

Lemma events_write_parquet mode parts path df w :
  events (write_parquet mode parts path df w) = []
  ∨ events (write_parquet mode parts path df w) = [EvWrite mode parts path df].
Proof.
  unfold write_parquet. destruct (resolve_all (columns df) parts); [|by left].
  destruct (save mode (s3 w !! path) _); simpl; auto.
Qed.

(** Every query of the songs view in lines 144-176 returns what the catalog
    held under that name when the lines started. *)
Lemma log_tail_queries spark o df w v :
  views w !! songs_table_view = Some v →
  Forall (λ ev, queries songs_table_view ev → ev = EvQueryView songs_table_view v)
         (events (log_tail spark o df w)).
Proof.
  intros Hv. unfold log_tail. repeat run_step; simpl;
    repeat first [ apply Forall_nil_2 | apply Forall_cons_2 ]; simpl; try done;
    try (simpl in Hview; rewrite lookup_insert_ne in Hview by done;
         intros _; congruence).
  match goal with
  | |- Forall _ (events (write_parquet ?m ?ps ?p ?d ?w')) =>
      destruct (events_write_parquet m ps p d w') as [-> | ->]
  end; [apply Forall_nil_2|]. by apply Forall_singleton.
Qed.

Lemma song_registers_at_most_once spark i o w :
  length (filter (registers songs_table_view) (events (process_song_data spark i o w)))
  ≤ 1.
Proof.
  unfold process_song_data. repeat run_step; simpl;
    try match goal with
        | |- context [events (write_parquet ?m ?ps ?p ?d ?w')] =>
            destruct (events_write_parquet m ps p d w') as [-> | ->]
        end;
    vm_compute; lia.
Qed.

Lemma song_never_queries spark i o :
  effects_in (λ ev, ¬ queries songs_table_view ev) (process_song_data spark i o).
Proof. unfold process_song_data. compose_effects; simpl; tauto. Qed.

Lemma log_never_registers spark i o :
  effects_in (λ ev, ¬ registers songs_table_view ev) (process_log_data spark i o).
Proof.
  unfold process_log_data, log_head, line_143.
  compose_effects; simpl; try tauto; discriminate.
Qed.

Lemma log_tail_never_registers spark o df :
  effects_in (λ ev, ¬ registers songs_table_view ev) (log_tail spark o df).
Proof. unfold log_tail. compose_effects; simpl; try tauto; discriminate. Qed.

(** [C8].  [main] runs the song pipeline and then, if it completed, the log
    pipeline.  The song pipeline registers [songs_table_view] at most once
    (exactly once when it completes) and never queries it; the log pipeline,
    and its lines 144-176 from any frame, never register it.  When the song
    pipeline has completed, the frame it registered is what the catalog
    holds under that name after it, still holds where the log pipeline stops,
    and is what every query of the view in lines 144-176 returns there. *)
Theorem songs_view_written_once_then_read spark w df :
  let song := process_song_data spark input_data output_data w in
  let log := process_log_data spark input_data output_data (world song) in
  let tail := log_tail spark output_data df (world log) in
  events (main spark w) = events song ++ (if is_ok (res song) then events log else [])
  ∧ length (filter (registers songs_table_view) (events song)) ≤ 1
  ∧ Forall (λ ev, ¬ queries songs_table_view ev) (events song)
  ∧ Forall (λ ev, ¬ registers songs_table_view ev) (events log)
  ∧ Forall (λ ev, ¬ registers songs_table_view ev) (events tail)
  ∧ (is_ok (res song) = true →
     ∃ v, filter (registers songs_table_view) (events song)
            = [EvRegisterView songs_table_view v]
          ∧ views (world song) !! songs_table_view = Some v
          ∧ views (world log) !! songs_table_view = Some v
          ∧ Forall (λ ev, queries songs_table_view ev
                          → ev = EvQueryView songs_table_view v)
                   (events tail)).
Proof.
  intros song log tail.
  split.
  { unfold main, create_spark_session, bind, ret. simpl. fold song.
    destruct (res song); simpl; [done|by rewrite app_nil_r]. }
  split; [apply song_registers_at_most_once|].
  split; [apply song_never_queries|].
  split; [apply log_never_registers|].
  split; [apply log_tail_never_registers|].
  intros Hok. destruct (res song) as [[]|] eqn:Hres; [|done].
  destruct (process_song_data_ok spark input_data output_data w Hres)
    as (d & songs & view & artists & _ & _ & _ & _ & Hrun).
  exists (DF.distinct view).
  assert (views (world song) !! songs_table_view = Some (DF.distinct view)) as Hv.
  { subst song. rewrite Hrun. apply lookup_insert_eq. }
  assert (views (world log) !! songs_table_view = Some (DF.distinct view)) as Hv'.
  { subst log. rewrite process_log_data_outcome. simpl.
    by rewrite log_head_keeps_views. }
  split; [subst song; rewrite Hrun; vm_compute; reflexivity|].
  split; [done|]. split; [done|].
  by apply log_tail_queries.
Qed.

(** * Instances on the sample data *)

(** [C1], counterexample.  The callee of the call in line 143 is the string
    literal ['start_time'], not the result of indexing a column: on the
    sample records the log pipeline raises the error of calling a [str],
    which is not the error of calling a [Column]. *)
Lemma line_143_callee_is_not_a_column :
  ¬ (∃ c, line_143_callee = PyColumn c)
  ∧ res (process_log_data Sample.session input_data output_data Sample.song_world)
    = Raise (TypeError "'str' object is not callable")
  ∧ ∀ c, res (process_log_data Sample.session input_data output_data Sample.song_world)
         ≠ Raise (not_callable (PyColumn c)).
Proof.
  split; [by intros [c Hc]|].
  split; [vm_compute; reflexivity|].
  intros c H. vm_compute in H. discriminate H.
Qed.


(** The foreign-key theorem on the sample data: both pipelines complete and
    the stored [songplays] row refers to stored [songs] and [artists] rows. *)
Lemma songplays_reference_dimensions_witness :
  res (process_song_data Sample.session input_data output_data Sample.world_full)
    = Ok ()
  ∧ res (log_tail Sample.session output_data Sample.timed_events Sample.song_world)
    = Ok ()
  ∧ ∃ songs artists songplays,
      s3 (world (log_tail Sample.session output_data Sample.timed_events
                   Sample.song_world)) !! (output_data +:+ "songs") = Some songs
      ∧ s3 (world (log_tail Sample.session output_data Sample.timed_events
                     Sample.song_world)) !! (output_data +:+ "artists") = Some artists
      ∧ s3 (world (log_tail Sample.session output_data Sample.timed_events
                     Sample.song_world)) !! (output_data +:+ "songplays")
        = Some songplays
      ∧ ∀ r, r ∈ rows (table songplays) →
          cell_of (table songplays) "song_id" r
            ∈ (cell_of (table songs) "song_id" <$> rows (table songs))
          ∧ cell_of (table songplays) "artist_id" r
            ∈ (cell_of (table artists) "artist_id" <$> rows (table artists)).
Proof.
  assert (res (process_song_data Sample.session input_data output_data
                 Sample.world_full) = Ok ()) as H1 by (vm_compute; reflexivity).
  assert (res (log_tail Sample.session output_data Sample.timed_events
                 Sample.song_world) = Ok ()) as H2 by (vm_compute; reflexivity).
  split; [exact H1|]. split; [exact H2|].
  exact (songplays_reference_dimensions Sample.session input_data output_data
           Sample.world_full Sample.timed_events H1 H2).
Defined.

(** The deduplication theorem on the two records of one artist: the song
    pipeline completes and the two stored rows differ. *)
Lemma artists_rows_are_distinct_witness :
  res (process_song_data Sample.session input_data output_data
         Sample.world_two_names) = Ok ()
  ∧ ∃ artists,
      s3 (world (process_song_data Sample.session input_data output_data
                   Sample.world_two_names)) !! (output_data +:+ "artists")
        = Some artists
      ∧ columns (table artists)
        = ["artist_id"; "artist_name"; "artist_location"; "artist_latitude";
           "artist_longitude"]
      ∧ NoDup (rows (table artists))
      ∧ unique_on (columns (table artists)) (table artists).
Proof.
  assert (res (process_song_data Sample.session input_data output_data
                 Sample.world_two_names) = Ok ()) as H by (vm_compute; reflexivity).
  split; [exact H|].
  exact (artists_rows_are_distinct Sample.session input_data output_data
           Sample.world_two_names H).
Defined.

(** * Further properties of the pipelines *)

(** ** When the song pipeline completes *)

Lemma resolve_all_ok_iff cols names :
  (∃ ixs, resolve_all cols names = Ok ixs) ↔ resolvable cols names.
Proof.
  unfold resolvable. induction names as [|n names IH]; simpl.
  - split; [intros _; apply Forall_nil_2 | eauto].
  - rewrite Forall_cons, <- IH. destruct (resolve n cols) as [i|]; simpl.
    + split.
      * intros [ixs H]. split; [eauto|].
        destruct (resolve_all cols names); [eauto | discriminate].
      * intros [_ [ixs ->]]. simpl. eauto.
    + split; [by intros [? ?] | by intros [[? ?] _]].
Qed.

Lemma select_ok_iff items df :
  (∃ t, DF.select items df = Ok t) ↔ resolvable (columns df) (sel_source <$> items).
Proof.
  rewrite <- resolve_all_ok_iff. unfold DF.select. split.
  - intros [t H]. destruct (resolve_all _ _); [eauto | discriminate].
  - intros [ixs ->]. simpl. eauto.
Qed.

Lemma resolvable_app cols l l' :
  resolvable cols (l ++ l') ↔ resolvable cols l ∧ resolvable cols l'.
Proof. apply Forall_app. Qed.

Lemma resolvable_sub cols l l' :
  l ⊆ l' → resolvable cols l' → resolvable cols l.
Proof.
  intros Hsub H. apply Forall_forall. intros n Hn.
  by apply (proj1 (Forall_forall _ _) H), Hsub.
Qed.

(** A write in overwrite mode raises only when a partition column does not
    resolve. *)
Lemma write_overwrite_res parts path df w :
  res (write_parquet Overwrite parts path df w) =
  match resolve_all (columns df) parts with
  | Ok _ => Ok ()
  | Raise e => Raise e
  end.
Proof. unfold write_parquet. by destruct (resolve_all (columns df) parts). Qed.

Lemma columns_select items df t :
  DF.select items df = Ok t → columns t = sel_output <$> items.
Proof. intros H. by apply select_spec in H as (? & _ & ? & _). Qed.

Lemma process_song_data_resolvable spark i o w d :
  s3 w !! song_path i = Some d →
  resolvable (columns (table d)) song_columns →
  res (process_song_data spark i o w) = Ok ().
Proof.
  intros Hd Hres.
  assert (∃ songs, DF.select songs_items (table d) = Ok songs) as [songs Hs].
  { apply select_ok_iff. eapply resolvable_sub; [|exact Hres].
    intros n Hn. apply list_elem_of_In in Hn. apply list_elem_of_In.
    simpl in *. tauto. }
  assert (∃ view, DF.select view_items (table d) = Ok view) as [view Hv].
  { apply select_ok_iff. eapply resolvable_sub; [|exact Hres].
    intros n Hn. apply list_elem_of_In in Hn. apply list_elem_of_In.
    simpl in *. tauto. }
  assert (∃ artists, DF.select artists_items (table d) = Ok artists)
    as [artists Ha].
  { apply select_ok_iff. eapply resolvable_sub; [|exact Hres].
    intros n Hn. apply list_elem_of_In in Hn. apply list_elem_of_In.
    simpl in *. tauto. }
  unfold process_song_data. unfold song_path in Hd.
  repeat run_step; try done; try congruence.
  all: destruct Hread as (d' & Hd' & ->);
    rewrite Hd in Hd'; injection Hd' as <-; try congruence.
  all: match goal with
       | E : res (write_parquet _ _ _ _ _) = Raise _ |- _ =>
           rewrite write_overwrite_res in E; simpl columns in E
       end.
  all: match goal with
       | H : DF.select songs_items _ = Ok ?t, E : context [columns ?t] |- _ =>
           rewrite (columns_select _ _ _ H) in E; vm_compute in E; discriminate E
       end.
Qed.

(** [X1].  When the input path holds a dataset in which each of the nine
    columns the song pipeline selects resolves, the pipeline completes,
    whatever the rows, the other columns, the store and the catalog hold: it
    performs exactly four effects, in this order: the read, the registration
    of the view, the write of [songs] and the write of [artists]. *)
Theorem process_song_data_completes spark i o w d :
  s3 w !! song_path i = Some d →
  resolvable (columns (table d)) song_columns →
  res (process_song_data spark i o w) = Ok ()
  ∧ ∃ songs view artists,
      events (process_song_data spark i o w)
      = [EvRead (song_path i);
         EvRegisterView songs_table_view view;
         EvWrite Overwrite ["year"; "artist_id"] (o +:+ "songs") songs;
         EvWrite Overwrite [] (o +:+ "artists") artists].
Proof.
  intros Hd Hres.
  pose proof (process_song_data_resolvable spark i o w d Hd Hres) as Hok.
  split; [exact Hok|].
  destruct (process_song_data_ok _ _ _ _ Hok)
    as (d' & songs & view & artists & _ & _ & _ & _ & ->).
  by exists (DF.distinct songs), (DF.distinct view), (DF.distinct artists).
Qed.

Lemma process_song_data_completes_witness :
  s3 Sample.world_full !! song_path input_data = Some (mkDataset [] Sample.song_full)
  ∧ resolvable (columns Sample.song_full) song_columns
  ∧ res (process_song_data Sample.session input_data output_data Sample.world_full)
    = Ok ().
Proof.
  assert (s3 Sample.world_full !! song_path input_data
          = Some (mkDataset [] Sample.song_full)) as Hd by (vm_compute; reflexivity).
  assert (resolvable (columns Sample.song_full) song_columns) as Hres.
  { repeat apply Forall_cons_2; try apply Forall_nil_2; vm_compute; eauto. }
  split; [exact Hd|]. split; [exact Hres|].
  exact (proj1 (process_song_data_completes Sample.session input_data output_data
                  Sample.world_full _ Hd Hres)).
Defined.

(** ** What the song pipeline stores *)

Lemma resolve_all_project cols names ixs rws (x : row) :
  resolve_all cols names = Ok ixs →
  (λ i, cell i x) <$> ixs = project {| columns := cols; rows := rws |} names x.
Proof.
  revert ixs. induction names as [|n names IH]; intros ixs H.
  - by injection H as <-.
  - apply resolve_all_cons in H as (i & rest & Hi & Hrest & ->).
    rewrite fmap_cons, (IH _ Hrest). unfold project. rewrite fmap_cons. f_equal.
    unfold cell_of. simpl. by rewrite Hi.
Qed.

Lemma select_rows_project items df t :
  DF.select items df = Ok t →
  rows t = project df (sel_source <$> items) <$> rows df.
Proof.
  intros H. apply select_spec in H as (ixs & Hixs & _ & ->).
  apply list_fmap_ext. intros _ x _. destruct df as [cols rws].
  by apply resolve_all_project.
Qed.

(** [X2].  A frame that has the song columns but not an artist column makes
    the song pipeline stop at line 83 after it has registered the view and
    written [songs]: the run is not all-or-nothing, [artists] is left as it
    was. *)
Theorem process_song_data_stops_after_songs spark i o w d songs view e :
  s3 w !! song_path i = Some d →
  DF.select songs_items (table d) = Ok songs →
  DF.select view_items (table d) = Ok view →
  DF.select artists_items (table d) = Raise e →
  process_song_data spark i o w =
  mkOutcome
    {| s3 := <[o +:+ "songs" := mkDataset ["year"; "artist_id"] (DF.distinct songs)]>
               (s3 w);
       views := <[songs_table_view := DF.distinct view]> (views w) |}
    [EvRead (song_path i);
     EvRegisterView songs_table_view (DF.distinct view);
     EvWrite Overwrite ["year"; "artist_id"] (o +:+ "songs") (DF.distinct songs)]
    (Raise e).
Proof.
  intros Hd Hs Hv Ha. unfold process_song_data, song_path in *.
  repeat run_step; try congruence.
  all: try (destruct Hread as (d' & Hd' & ->);
            rewrite Hd in Hd'; injection Hd' as <-).
  all: try congruence.
  - rewrite Hs in E0. injection E0 as <-. rewrite Hv in E1. injection E1 as <-.
    rewrite Ha in E3. by injection E3 as <-.
  - rewrite write_overwrite_res in E2. simpl columns in E2.
    rewrite (columns_select _ _ _ E0) in E2. vm_compute in E2. discriminate E2.
Qed.

(** On exactly the song record of the end-to-end example, which has no
    [artist_location], the pipeline stops that way. *)
Lemma process_song_data_stops_after_songs_witness :
  ∃ songs view,
    DF.select songs_items Sample.song_exact = Ok songs
    ∧ DF.select view_items Sample.song_exact = Ok view
    ∧ events (process_song_data Sample.session input_data output_data
                Sample.world_exact)
      = [EvRead (song_path input_data);
         EvRegisterView songs_table_view (DF.distinct view);
         EvWrite Overwrite ["year"; "artist_id"] (output_data +:+ "songs")
           (DF.distinct songs)]
    ∧ res (process_song_data Sample.session input_data output_data
             Sample.world_exact)
      = Raise (AnalysisException "artist_location").
Proof.
  eexists _, _.
  assert (s3 Sample.world_exact !! song_path input_data
          = Some (mkDataset [] Sample.song_exact)) as Hd by (vm_compute; reflexivity).
  pose proof (λ songs view Hs Hv,
    process_song_data_stops_after_songs Sample.session input_data output_data
      Sample.world_exact (mkDataset [] Sample.song_exact) songs view
      (AnalysisException "artist_location") Hd Hs Hv
      ltac:(vm_compute; reflexivity)) as H.
  split; [vm_compute; reflexivity|]. split; [vm_compute; reflexivity|].
  erewrite H; [split; reflexivity| vm_compute; reflexivity | vm_compute; reflexivity].
Defined.

Lemma elem_of_distinct_select items df t r :
  DF.select items df = Ok t →
  r ∈ rows (DF.distinct t)
  ↔ ∃ x, x ∈ rows df ∧ r = project df (sel_source <$> items) x.
Proof.
  intros H. simpl. rewrite elem_of_remove_dups, (select_rows_project _ _ _ H).
  rewrite list_elem_of_fmap.
  split; [intros (x & -> & Hx); eauto | intros (x & Hx & ->); eauto].
Qed.

(** [X3].  When the song pipeline completes, the [songs] table it stores
    (partitioned by year and artist_id) and the view it registers hold,
    without duplicates, exactly the projections of the input records on
    their five and six columns; the [songs] rows are exactly the view rows
    without their [artist_name]. *)
Theorem songs_table_and_view_contents spark i o w :
  res (process_song_data spark i o w) = Ok () →
  ∃ d songs view,
    s3 w !! song_path i = Some d
    ∧ s3 (world (process_song_data spark i o w)) !! (o +:+ "songs") = Some songs
    ∧ views (world (process_song_data spark i o w)) !! songs_table_view = Some view
    ∧ partitionBy songs = ["year"; "artist_id"]
    ∧ columns (table songs) = ["song_id"; "title"; "artist_id"; "year"; "duration"]
    ∧ columns view
      = ["song_id"; "title"; "artist_id"; "year"; "duration"; "artist_name"]
    ∧ NoDup (rows (table songs))
    ∧ NoDup (rows view)
    ∧ (∀ r, r ∈ rows (table songs)
            ↔ ∃ x, x ∈ rows (table d)
                   ∧ r = project (table d)
                           ["song_id"; "title"; "artist_id"; "year"; "duration"] x)
    ∧ (∀ r, r ∈ rows view
            ↔ ∃ x, x ∈ rows (table d)
                   ∧ r = project (table d)
                           ["song_id"; "title"; "artist_id"; "year"; "duration";
                            "artist_name"] x)
    ∧ (∀ r, r ∈ rows (table songs) ↔ ∃ v, v ∈ rows view ∧ r = take 5 v).
Proof.
  intros H.
  destruct (process_song_data_ok _ _ _ _ H)
    as (d & songs & view & artists & Hd & Hsongs & Hview & Hartists & ->).
  exists d, (mkDataset ["year"; "artist_id"] (DF.distinct songs)), (DF.distinct view).
  assert (o +:+ "artists" ≠ o +:+ "songs") as Hne
    by (intros Heq; apply append_inj_r in Heq; discriminate).
  split; [done|]. split; [simpl; by rewrite lookup_insert_ne, lookup_insert_eq|].
  split; [apply lookup_insert_eq|]. split; [done|].
  split; [simpl; by rewrite (columns_select _ _ _ Hsongs)|].
  split; [simpl; by rewrite (columns_select _ _ _ Hview)|].
  split; [apply NoDup_remove_dups|]. split; [apply NoDup_remove_dups|].
  pose proof (λ r, elem_of_distinct_select _ _ _ r Hsongs) as Hs.
  pose proof (λ r, elem_of_distinct_select _ _ _ r Hview) as Hv.
  split; [exact Hs|]. split; [exact Hv|].
  intros r. simpl table. rewrite Hs. split.
  - intros (x & Hx & ->). eexists. split; [apply Hv; eauto|]. reflexivity.
  - intros (v & Hin & ->). apply Hv in Hin as (x & Hx & ->). eauto.
Qed.

Lemma songs_table_and_view_contents_witness :
  res (process_song_data Sample.session input_data output_data Sample.world_full)
    = Ok ()
  ∧ ∃ songs view,
      s3 Sample.song_world !! (output_data +:+ "songs") = Some songs
      ∧ views Sample.song_world !! songs_table_view = Some view
      ∧ ∀ r, r ∈ rows (table songs) ↔ ∃ v, v ∈ rows view ∧ r = take 5 v.
Proof.
  assert (res (process_song_data Sample.session input_data output_data
                 Sample.world_full) = Ok ()) as H by (vm_compute; reflexivity).
  split; [exact H|].
  destruct (songs_table_and_view_contents _ _ _ _ H)
    as (d & songs & view & _ & Hs & Hv & _ & _ & _ & _ & _ & _ & _ & Hpre).
  exists songs, view. split; [exact Hs|]. split; [exact Hv|exact Hpre].
Defined.

(** ** What the log pipeline stores *)

Lemma project_filter cond df names x :
  project (DF.filter cond df) names x = project df names x.
Proof. done. Qed.

(** The head of the log pipeline, once the events are read and [page] and
    the five user columns resolve, writes [users] and changes nothing else,
    whatever its later statements do. *)
Lemma log_head_writes_users spark i o w d :
  s3 w !! log_path i = Some d →
  resolvable (columns (table d)) ("page" :: user_columns) →
  ∃ ip ut,
    resolve "page" (columns (table d)) = Some ip
    ∧ DF.select users_items
        (DF.filter (col_eq (cell ip) (lit (VStr "NextSong"))) (table d)) = Ok ut
    ∧ world (log_head spark i o w)
      = {| s3 := <[o +:+ "users" := mkDataset [] (DF.distinct ut)]> (s3 w);
           views := views w |}.
Proof.
  intros Hd Hres. unfold log_path in Hd.
  apply Forall_cons in Hres as [[ip Hip] Hres].
  assert (∃ ut, DF.select users_items
                  (DF.filter (col_eq (cell ip) (lit (VStr "NextSong"))) (table d))
                = Ok ut) as [ut Hut] by (by apply select_ok_iff).
  assert (∃ ut', DF.select [SName "userId"; SName "firstName"; SName "lastName";
                            SName "gender"; SName "level"]
                   (DF.filter (col_eq (cell ip) (lit (VStr "NextSong"))) (table d))
                 = Ok ut') as [ut' Hut'] by (by apply select_ok_iff).
  assert (getattr (table d) "page" = Ok (cell ip)) as Hpage
    by (apply getattr_ok; eauto).
  exists ip, ut. split; [done|]. split; [done|].
  unfold log_head. fold users_items.
  repeat run_step;
    try (destruct Hread as (d' & Hd' & ->); rewrite Hd in Hd'; injection Hd' as <-);
    try congruence;
    repeat match goal with
           | H1 : ?x = Ok _, H2 : ?x = Ok _ |- _ =>
               rewrite H1 in H2; injection H2 as <-
           | H1 : ?x = Ok _, H2 : ?x = Raise _ |- _ =>
               rewrite H1 in H2; discriminate H2
           end;
    try done.
Qed.

(** [X4].  Once the events are read and [page] and the five user columns
    resolve, the log pipeline leaves a [users] table (unpartitioned, columns
    renamed to user_id, first_name, last_name) that holds, without
    duplicates, exactly the user columns of the events whose [page] is
    "NextSong"; events of other pages, or with no page, contribute nothing.
    This holds although the pipeline raises afterwards. *)
Theorem users_table_contents spark i o w d :
  s3 w !! log_path i = Some d →
  resolvable (columns (table d)) ("page" :: user_columns) →
  ∃ users,
    s3 (world (process_log_data spark i o w)) !! (o +:+ "users") = Some users
    ∧ partitionBy users = []
    ∧ columns (table users)
      = ["user_id"; "first_name"; "last_name"; "gender"; "level"]
    ∧ NoDup (rows (table users))
    ∧ ∀ r, r ∈ rows (table users)
           ↔ ∃ e, e ∈ rows (table d)
                  ∧ cell_of (table d) "page" e = VStr "NextSong"
                  ∧ r = project (table d) user_columns e.
Proof.
  intros Hd Hres.
  destruct (log_head_writes_users spark i o w d Hd Hres) as (ip & ut & Hip & Hut & Hw).
  rewrite process_log_data_outcome. simpl world. rewrite Hw. simpl s3.
  exists (mkDataset [] (DF.distinct ut)).
  split; [apply lookup_insert_eq|]. split; [done|].
  split; [simpl; by rewrite (columns_select _ _ _ Hut)|].
  split; [apply NoDup_remove_dups|].
  intros r. simpl table. rewrite (elem_of_distinct_select _ _ _ r Hut).
  unfold cell_of. rewrite Hip. split.
  - intros (e & He & ->). simpl in He. apply list_elem_of_filter in He as [Hc He].
    exists e. split; [done|]. split; [|done].
    unfold col_eq, lit in Hc. by apply sql_eq_str in Hc.
  - intros (e & He & Hpage & ->). exists e. split; [|done].
    simpl. apply list_elem_of_filter. split; [|done].
    unfold col_eq, lit. by apply sql_eq_str.
Qed.

Lemma users_table_contents_witness :
  s3 Sample.song_world !! log_path input_data = Some (mkDataset [] Sample.log_full)
  ∧ resolvable (columns Sample.log_full) ("page" :: user_columns)
  ∧ ∃ users,
      s3 (world (process_log_data Sample.session input_data output_data
                   Sample.song_world)) !! (output_data +:+ "users") = Some users
      ∧ rows (table users) = [[VStr "10"; VNull; VNull; VNull; VNull]].
Proof.
  assert (s3 Sample.song_world !! log_path input_data
          = Some (mkDataset [] Sample.log_full)) as Hd by (vm_compute; reflexivity).
  assert (resolvable (columns Sample.log_full) ("page" :: user_columns)) as Hres.
  { repeat apply Forall_cons_2; try apply Forall_nil_2; vm_compute; eauto. }
  split; [exact Hd|]. split; [exact Hres|].
  destruct (users_table_contents Sample.session input_data output_data
              Sample.song_world _ Hd Hres) as (users & Hu & _).
  exists users. split; [exact Hu|].
  assert (s3 (world (process_log_data Sample.session input_data output_data
                       Sample.song_world)) !! (output_data +:+ "users")
          = Some (mkDataset [] (mkDataFrame
              ["user_id"; "first_name"; "last_name"; "gender"; "level"]
              [[VStr "10"; VNull; VNull; VNull; VNull]]))) as Hu'
    by (vm_compute; reflexivity).
  rewrite Hu in Hu'. by injection Hu' as ->.
Defined.

(** ** What the log pipeline and [main] never do *)

Lemma tracked_log_head spark i o : tracked (log_head spark i o).
Proof. unfold log_head. compose_tracked. Qed.

Lemma head_effect_writes i o ev :
  head_effect i o ev → overwrites ev ∧ writes_within [o +:+ "users"] ev.
Proof.
  intros [-> | [df ->]]; simpl; [done|]. split; [done|]. apply list_elem_of_here.
Qed.

Lemma last_write_outside paths p evs :
  p ∉ paths → Forall (writes_within paths) evs → last_write p evs = None.
Proof.
  intros Hp Hall. apply last_write_none. eapply Forall_impl; [exact Hall|].
  intros [|mode parts path df| |]; simpl; try done. by intros Hin ->.
Qed.

(** [X5].  For every session, input and world, the log pipeline leaves the
    view catalog as it found it and leaves every path of the store other
    than [users] as it found it: it changes nothing under [time],
    [songplays], the song pipeline's tables or its own input. *)
Theorem log_pipeline_changes_only_users spark i o w :
  views (world (process_log_data spark i o w)) = views w
  ∧ ∀ p, p ≠ o +:+ "users" →
         s3 (world (process_log_data spark i o w)) !! p = s3 w !! p.
Proof.
  rewrite process_log_data_outcome. simpl world.
  split; [apply log_head_keeps_views|].
  intros p Hp. rewrite tracked_log_head.
  pose proof (log_head_events spark i o w) as Hev.
  rewrite lookup_replay.
  - rewrite (last_write_outside [o +:+ "users"]); [done| |].
    + by intros ->%list_elem_of_singleton.
    + eapply Forall_impl; [exact Hev|]. intros ev H.
      by destruct (head_effect_writes _ _ _ H).
  - eapply Forall_impl; [exact Hev|]. intros ev H.
    by destruct (head_effect_writes _ _ _ H).
Qed.

Lemma effects_song_paths spark i o :
  effects_in (writes_within [o +:+ "songs"; o +:+ "artists"; o +:+ "users"])
             (process_song_data spark i o).
Proof.
  unfold process_song_data. compose_effects; simpl; try done;
    rewrite list_elem_of_In; simpl; tauto.
Qed.

Lemma effects_log_paths spark i o :
  effects_in (writes_within [o +:+ "songs"; o +:+ "artists"; o +:+ "users"])
             (process_log_data spark i o).
Proof.
  intros w. rewrite process_log_data_outcome. simpl.
  eapply Forall_impl; [apply log_head_events|].
  intros ev [-> | [df ->]]; simpl; [done|]. rewrite list_elem_of_In; simpl; tauto.
Qed.

Lemma effects_log_no_view spark i o :
  effects_in (λ ev, ¬ queries songs_table_view ev) (process_log_data spark i o).
Proof.
  intros w. rewrite process_log_data_outcome. simpl.
  eapply Forall_impl; [apply log_head_events|].
  intros ev [-> | [df ->]]; simpl; tauto.
Qed.

(** [X6].  For every session and world, [main] ends by raising: the job
    never completes.  Whatever it found, it writes only under [songs],
    [artists] and [users], never queries the songs view, and leaves the
    [time] and [songplays] paths of the store as they were. *)
Theorem main_never_completes session w :
  (∃ e, res (main session w) = Raise e)
  ∧ Forall (λ ev, writes_within [output_data +:+ "songs"; output_data +:+ "artists";
                                 output_data +:+ "users"] ev
                  ∧ ¬ queries songs_table_view ev)
           (events (main session w))
  ∧ s3 (world (main session w)) !! (output_data +:+ "time")
    = s3 w !! (output_data +:+ "time")
  ∧ s3 (world (main session w)) !! (output_data +:+ "songplays")
    = s3 w !! (output_data +:+ "songplays").
Proof.
  assert (Forall (λ ev, writes_within [output_data +:+ "songs";
                                       output_data +:+ "artists";
                                       output_data +:+ "users"] ev
                        ∧ ¬ queries songs_table_view ev)
                 (events (main session w))) as Hev.
  { apply Forall_and. split.
    - revert w. change (effects_in (writes_within [output_data +:+ "songs";
        output_data +:+ "artists"; output_data +:+ "users"]) (main session)).
      unfold main, create_spark_session. apply effects_bind; [apply effects_ret|].
      intros spark. apply effects_bind; [apply effects_song_paths|].
      intros _. apply effects_log_paths.
    - revert w. change (effects_in (λ ev, ¬ queries songs_table_view ev)
                          (main session)).
      unfold main, create_spark_session. apply effects_bind; [apply effects_ret|].
      intros spark. apply effects_bind; [apply song_never_queries|].
      intros _. apply effects_log_no_view. }
  split.
  { unfold main, create_spark_session, bind, ret. simpl.
    destruct (res (process_song_data session input_data output_data w)); simpl;
      [|eauto]. rewrite process_log_data_outcome. simpl. eauto. }
  split; [exact Hev|].
  destruct (main_writes session w) as [How _].
  apply Forall_and in Hev as [Hpaths _].
  assert (∀ t, t = "time" ∨ t = "songplays" →
               output_data +:+ t ∉ [output_data +:+ "songs";
                                    output_data +:+ "artists";
                                    output_data +:+ "users"]) as Hout.
  { intros t Ht. rewrite list_elem_of_In.
    destruct Ht as [-> | ->]; vm_compute; intuition discriminate. }
  split; rewrite tracked_main, lookup_replay by done.
  - by rewrite (last_write_outside _ _ _ (Hout "time" ltac:(by left)) Hpaths).
  - by rewrite (last_write_outside _ _ _ (Hout "songplays" ltac:(by right)) Hpaths).
Qed.

(** ** The log pipeline on well-formed events *)

Lemma positions_NoDup name cols k :
  NoDup cols → name ∈ cols → ∃ j, positions name cols k = [j].
Proof.
  revert k. induction cols as [|c cols IH]; intros k Hnd Hin.
  - by apply elem_of_nil in Hin.
  - apply NoDup_cons in Hnd as [Hc Hnd]. simpl.
    destruct (decide (c = name)) as [->|Hne].
    + exists k. f_equal. by apply positions_nil.
    + apply elem_of_cons in Hin as [->|Hin]; [done|]. by apply IH.
Qed.

Lemma resolve_NoDup name cols :
  NoDup cols → name ∈ cols → is_Some (resolve name cols).
Proof.
  intros Hnd Hin. unfold resolve.
  destruct (positions_NoDup name cols 0 Hnd Hin) as [j ->]. eauto.
Qed.

Lemma NoDup_columns_withColumn name c df :
  NoDup (columns df) →
  NoDup (columns (DF.withColumn name c df))
  ∧ name ∈ columns (DF.withColumn name c df)
  ∧ columns df ⊆ columns (DF.withColumn name c df).
Proof.
  intros Hnd. unfold DF.withColumn. rewrite columns_withColumn_at.
  destruct (decide (name ∈ columns df)) as [Hin|Hin]; [done|].
  split; [|split].
  - apply NoDup_app. split; [done|]. split; [|apply NoDup_singleton].
    intros x Hx ->%list_elem_of_singleton. done.
  - apply elem_of_app. right. apply list_elem_of_here.
  - intros x Hx. apply elem_of_app. by left.
Qed.

Lemma getattr_NoDup df name :
  NoDup (columns df) → name ∈ columns df → ∃ c, getattr df name = Ok c.
Proof.
  intros Hnd Hin. destruct (resolve_NoDup _ _ Hnd Hin) as [i Hi].
  exists (cell i). apply getattr_ok. eauto.
Qed.

Lemma resolvable_NoDup cols names :
  NoDup cols → names ⊆ cols → resolvable cols names.
Proof.
  intros Hnd Hsub. apply Forall_forall. intros n Hn.
  by apply resolve_NoDup, Hsub.
Qed.

(** [X7].  On events read under distinct column names that include [page],
    [ts] and the five user columns, the log pipeline performs exactly two
    effects, the read and the write of [users], and then raises exactly the
    [TypeError] of line 143: no earlier statement raises. *)
Theorem log_pipeline_on_well_formed_events spark i o w d :
  s3 w !! log_path i = Some d →
  NoDup (columns (table d)) →
  "page" :: "ts" :: user_columns ⊆ columns (table d) →
  res (process_log_data spark i o w)
    = Raise (TypeError "'str' object is not callable")
  ∧ ∃ users,
      events (process_log_data spark i o w)
      = [EvRead (log_path i); EvWrite Overwrite [] (o +:+ "users") users].
Proof.
  intros Hd Hnd Hsub. rewrite process_log_data_outcome. simpl.
  assert (∀ n, In n ("page" :: "ts" :: user_columns) → n ∈ columns (table d)) as Hin.
  { intros n Hn. by apply Hsub, list_elem_of_In. }
  assert (resolvable (columns (table d)) ("page" :: user_columns)) as Hres.
  { apply resolvable_NoDup; [done|]. intros n Hn. apply Hin.
    apply list_elem_of_In in Hn. simpl in *. tauto. }
  destruct (log_head_writes_users spark i o w d Hd Hres) as (ip & ut & Hip & Hut & _).
  assert (∃ ut', DF.select [SName "userId"; SName "firstName"; SName "lastName";
                            SName "gender"; SName "level"]
                   (DF.filter (col_eq (cell ip) (lit (VStr "NextSong"))) (table d))
                 = Ok ut') as [ut' Hut'].
  { apply select_ok_iff. by apply Forall_cons in Hres as [_ ?]. }
  assert (getattr (table d) "page" = Ok (cell ip)) as Hpage
    by (apply getattr_ok; eauto).
  set (df0 := DF.filter (col_eq (cell ip) (lit (VStr "NextSong"))) (table d)) in *.
  assert (NoDup (columns df0)) as Hnd0 by done.
  destruct (getattr_NoDup df0 "ts" Hnd0 (Hin "ts" ltac:(simpl; tauto))) as [ts Hts].
  assert (∀ c, ∃ col, getattr (DF.withColumn "timestamp" c df0) "timestamp" = Ok col)
    as Htimestamp.
  { intros c. destruct (NoDup_columns_withColumn "timestamp" c df0 Hnd0)
      as (Hnd1 & Hin1 & _). by apply getattr_NoDup. }
  assert (∃ df, res (log_head spark i o w) = Ok df
                ∧ events (log_head spark i o w)
                  = [EvRead (log_path i);
                     EvWrite Overwrite [] (o +:+ "users") (DF.distinct ut)])
    as (df & -> & ->); [|eauto].
  subst df0. unfold log_head, log_path in *. fold users_items.
  repeat run_step;
    try (destruct Hread as (d' & Hd' & ->); rewrite Hd in Hd'; injection Hd' as <-);
    try congruence;
    repeat match goal with
           | H1 : ?x = Ok _, H2 : ?x = Ok _ |- _ =>
               rewrite H1 in H2; injection H2 as <-
           | H1 : ?x = Ok _, H2 : ?x = Raise _ |- _ =>
               rewrite H1 in H2; discriminate H2
           end;
    eauto.
  match goal with
  | E : getattr (DF.withColumn "timestamp" ?c _) "timestamp" = Raise _ |- _ =>
      destruct (Htimestamp c) as [col Hcol]; rewrite Hcol in E; discriminate E
  end.
Qed.

Lemma log_pipeline_on_well_formed_events_witness :
  s3 Sample.song_world !! log_path input_data = Some (mkDataset [] Sample.log_full)
  ∧ NoDup (columns Sample.log_full)
  ∧ "page" :: "ts" :: user_columns ⊆ columns Sample.log_full
  ∧ res (process_log_data Sample.session input_data output_data Sample.song_world)
    = Raise (TypeError "'str' object is not callable").
Proof.
  assert (s3 Sample.song_world !! log_path input_data
          = Some (mkDataset [] Sample.log_full)) as Hd by (vm_compute; reflexivity).
  assert (NoDup (columns Sample.log_full)) as Hnd
    by (apply (bool_decide_unpack (NoDup _)); vm_compute; exact I).
  assert ("page" :: "ts" :: user_columns ⊆ columns Sample.log_full) as Hsub.
  { intros n Hn. apply list_elem_of_In in Hn. apply list_elem_of_In.
    simpl in *. intuition (subst; tauto). }
  split; [exact Hd|]. split; [exact Hnd|]. split; [exact Hsub|].
  exact (proj1 (log_pipeline_on_well_formed_events Sample.session input_data
                  output_data Sample.song_world _ Hd Hnd Hsub)).
Defined.

(** ** The rows of [songplays] *)

Lemma songplays_join_NoDup df song_df j :
  songplays_join df song_df = Ok j → NoDup (jrows j).
Proof.
  intros H. unfold songplays_join in H. run_inv H. injection H as <-.
  apply NoDup_remove_dups.
Qed.

(** The rows of the [songplays] expression, position by position. *)
Lemma songplays_table_rows spark df song_df t :
  songplays_table spark df song_df = Ok t →
  ∃ j year month fs,
    songplays_join df song_df = Ok j
    ∧ getitem df "year" = Ok year ∧ getitem df "month" = Ok month
    ∧ jresolve_all (columns df) (columns song_df) (songplays_items year month) = Ok fs
    ∧ rows t = imap (λ k r, r ++ [VLong (monotonically_increasing_id spark k)])
                 ((λ p, (λ f : row * row → value, f p) <$> fs) <$> jrows j).
Proof.
  intros H. unfold songplays_table in H. run_inv H. injection H as <-.
  rename x into j, x0 into year, x1 into month, x2 into selected.
  match goal with H : songplays_join _ _ = Ok _ |- _ =>
    destruct (songplays_join_spec _ _ _ H) as (Hl & Hr & Hj) end.
  match goal with H : JF.select _ _ = Ok _ |- _ =>
    destruct (jselect_spec _ _ _ H) as (fs & Hfs & Hcols & Hrows) end.
  rewrite Hl, Hr in Hfs.
  exists j, year, month, fs.
  split; [done|]. split; [done|]. split; [done|]. split; [done|].
  rewrite rows_withColumn_at_fresh.
  - by rewrite Hrows.
  - rewrite Hcols. simpl. rewrite list_elem_of_In. simpl. intuition discriminate.
  - rewrite Hrows, Hcols, Forall_fmap. apply Forall_forall. intros p _. simpl.
    rewrite length_fmap. by rewrite (jresolve_all_length _ _ _ _ Hfs).
Qed.

(** [X8].  When the [songplays] expression of lines 165-172 evaluates, every
    pair of an event and a song that agree exactly on title, artist name and
    duration yields a row: the joined pairs are pairwise different, there
    are as many rows as pairs, and the row at the position of a pair is the
    projection of that pair followed by the id of that position. *)
Theorem songplays_has_a_row_per_match spark df song_df t :
  songplays_table spark df song_df = Ok t →
  ∃ j year month fs,
    songplays_join df song_df = Ok j
    ∧ jresolve_all (columns df) (columns song_df) (songplays_items year month) = Ok fs
    ∧ NoDup (jrows j)
    ∧ length (rows t) = length (jrows j)
    ∧ ∀ e s, e ∈ rows df → s ∈ rows song_df → exact_match df song_df e s →
        ∃ k, jrows j !! k = Some (e, s)
             ∧ rows t !! k
               = Some (((λ f : row * row → value, f (e, s)) <$> fs)
                       ++ [VLong (monotonically_increasing_id spark k)]).
Proof.
  intros H.
  destruct (songplays_table_rows _ _ _ _ H)
    as (j & year & month & fs & Hj & _ & _ & Hfs & Hrows).
  exists j, year, month, fs.
  split; [done|]. split; [done|].
  split; [by eapply songplays_join_NoDup|].
  split; [by rewrite Hrows, length_imap, length_fmap|].
  intros e s He Hs Hm.
  destruct (songplays_join_spec _ _ _ Hj) as (_ & _ & Hiff).
  assert ((e, s) ∈ jrows j) as Hin.
  { apply Hiff. split; [done|]. split; [done|]. by apply exact_match_join_match. }
  apply list_elem_of_lookup in Hin as [k Hk]. exists k. split; [done|].
  by rewrite Hrows, list_lookup_imap, list_lookup_fmap, Hk.
Qed.

Lemma songplays_has_a_row_per_match_witness :
  songplays_table Sample.session Sample.calendar_events Sample.songs_view
    = Ok Sample.songplays
  ∧ ∃ j, songplays_join Sample.calendar_events Sample.songs_view = Ok j
         ∧ NoDup (jrows j)
         ∧ length (rows Sample.songplays) = length (jrows j).
Proof.
  assert (songplays_table Sample.session Sample.calendar_events Sample.songs_view
            = Ok Sample.songplays) as H by (vm_compute; reflexivity).
  split; [exact H|].
  destruct (songplays_has_a_row_per_match _ _ _ _ H)
    as (j & _ & _ & _ & Hj & _ & Hnd & Hlen & _).
  exists j. split; [exact Hj|]. split; [exact Hnd|exact Hlen].
Defined.

(** ** The log pipeline's tail needs the song pipeline's view *)

(** [X10].  Lines 144-176 started in a session whose catalog has no
    [songs_table_view] (the song pipeline has not run in it) raise: they
    register [log_view] and may write [time], but they never write
    [songplays] and leave that path of the store as it was. *)
Theorem log_tail_without_view_raises spark o df w :
  views w !! songs_table_view = None →
  (∃ e, res (log_tail spark o df w) = Raise e)
  ∧ Forall (writes_within [o +:+ "time"]) (events (log_tail spark o df w))
  ∧ s3 (world (log_tail spark o df w)) !! (o +:+ "songplays")
    = s3 w !! (o +:+ "songplays").
Proof.
  intros Hv.
  assert (o +:+ "time" ≠ o +:+ "songplays") as Hne
    by (intros Heq; apply append_inj_r in Heq; discriminate).
  unfold log_tail. repeat run_step; simpl;
    try (simpl in Hview; rewrite lookup_insert_ne in Hview by done; congruence);
    (split; [eauto|]); (split; [|by rewrite ?lookup_insert_ne]);
    repeat first [ apply Forall_nil_2 | apply Forall_cons_2 ]; simpl; try done;
    apply list_elem_of_here.
Qed.

Lemma log_tail_without_view_raises_witness :
  views Sample.world_full !! songs_table_view = None
  ∧ res (log_tail Sample.session output_data Sample.timed_events Sample.world_full)
    = Raise (AnalysisException songs_table_view)
  ∧ s3 (world (log_tail Sample.session output_data Sample.timed_events
                 Sample.world_full)) !! (output_data +:+ "songplays") = None.
Proof.
  assert (views Sample.world_full !! songs_table_view = None) as Hv
    by (vm_compute; reflexivity).
  split; [exact Hv|].
  destruct (log_tail_without_view_raises Sample.session output_data
              Sample.timed_events Sample.world_full Hv) as ([e He] & _ & Hs).
  split; [vm_compute; reflexivity|].
  rewrite Hs. vm_compute. reflexivity.
Defined.

(** ** The song pipeline and what the store held before *)

Lemma read_json_res path w :
  res (read_json path w) = match s3 w !! path with
                           | Some d => Ok (table d)
                           | None => Raise (AnalysisException path)
                           end.
Proof. unfold read_json. by destruct (s3 w !! path). Qed.

(** The result and the effects of the song pipeline depend on the world only
    through what its input path holds. *)
Lemma process_song_data_same_input spark i o w w' :
  s3 w !! song_path i = s3 w' !! song_path i →
  res (process_song_data spark i o w) = res (process_song_data spark i o w')
  ∧ events (process_song_data spark i o w) = events (process_song_data spark i o w').
Proof.
  intros Hin. unfold process_song_data, song_path in *.
  repeat run_step;
    repeat match goal with
           | H : res (read_json _ _) = _ |- _ => rewrite read_json_res in H
           | H : res (write_parquet Overwrite _ _ _ _) = _ |- _ =>
               rewrite write_overwrite_res in H
           end;
    rewrite <- ?Hin in *;
    repeat match goal with
           | H : ∃ d, _ ∧ _ = table d |- _ => clear H
           | H : s3 _ !! _ = None |- _ => clear H
           end;
    destruct (s3 w !! (i +:+ "song_data/*/*/*/*.json")) as [d|];
    repeat match goal with
           | H : Ok _ = Raise _ |- _ => discriminate H
           | H : Raise _ = Ok _ |- _ => discriminate H
           | H : Ok _ = Ok _ |- _ => injection H as ->
           | H : Raise _ = Raise _ |- _ => injection H as ->
           | H1 : ?x = Ok _, H2 : ?x = Ok _ |- _ =>
               rewrite H1 in H2; injection H2 as <-
           | H1 : ?x = Ok _, H2 : ?x = Raise _ |- _ =>
               rewrite H1 in H2; discriminate H2
           | H1 : ?x = Raise _, H2 : ?x = Raise _ |- _ =>
               rewrite H1 in H2; injection H2 as <-
           end;
    try done.
Qed.

(** [X11].  The song pipeline reads the world only through its input path:
    from two worlds that hold the same dataset there, whatever else the store
    and the catalog hold (stale outputs of earlier runs, an old view), it
    ends with the same result and performs the same effects, and when it
    completes both runs leave the same [songs] and [artists] tables and the
    same registered view. *)
Theorem song_pipeline_ignores_old_outputs spark i o w w' :
  s3 w !! song_path i = s3 w' !! song_path i →
  res (process_song_data spark i o w) = res (process_song_data spark i o w')
  ∧ events (process_song_data spark i o w) = events (process_song_data spark i o w')
  ∧ (res (process_song_data spark i o w) = Ok () →
     s3 (world (process_song_data spark i o w)) !! (o +:+ "songs")
       = s3 (world (process_song_data spark i o w')) !! (o +:+ "songs")
     ∧ s3 (world (process_song_data spark i o w)) !! (o +:+ "artists")
       = s3 (world (process_song_data spark i o w')) !! (o +:+ "artists")
     ∧ views (world (process_song_data spark i o w)) !! songs_table_view
       = views (world (process_song_data spark i o w')) !! songs_table_view).
Proof.
  intros Hin. destruct (process_song_data_same_input spark i o w w' Hin) as [Hr He].
  split; [done|]. split; [done|]. intros Hok.
  assert (res (process_song_data spark i o w') = Ok ()) as Hok' by congruence.
  destruct (process_song_data_ok _ _ _ _ Hok)
    as (d & songs & view & artists & _ & _ & _ & _ & Hrun).
  destruct (process_song_data_ok _ _ _ _ Hok')
    as (d' & songs' & view' & artists' & _ & _ & _ & _ & Hrun').
  rewrite Hrun, Hrun' in He |- *. cbn [world s3 views events] in *.
  assert (o +:+ "artists" ≠ o +:+ "songs") as Hne
    by (intros Heq; apply append_inj_r in Heq; discriminate).
  rewrite !lookup_insert_eq, !(lookup_insert_ne _ _ _ _ Hne), !lookup_insert_eq.
  repeat split; congruence.
Qed.

Lemma song_pipeline_ignores_old_outputs_witness :
  s3 Sample.world_full !! song_path input_data
    = s3 Sample.song_world !! song_path input_data
  ∧ views Sample.song_world !! songs_table_view ≠ views Sample.world_full !! songs_table_view
  ∧ events (process_song_data Sample.session input_data output_data Sample.world_full)
    = events (process_song_data Sample.session input_data output_data
                Sample.song_world).
Proof.
  assert (s3 Sample.world_full !! song_path input_data
          = s3 Sample.song_world !! song_path input_data) as Hin
    by (vm_compute; reflexivity).
  split; [exact Hin|]. split; [vm_compute; discriminate|].
  exact (proj1 (proj2 (song_pipeline_ignores_old_outputs Sample.session input_data
                         output_data Sample.world_full Sample.song_world Hin))).
Defined.

(** ** Cells after [withColumn] *)

Lemma length_fit n (r : row) : length (fit n r) = n.
Proof. unfold fit. rewrite length_take, length_app, length_replicate. lia. Qed.

Lemma cell_fit n i (r : row) : i < n → cell i (fit n r) = cell i r.
Proof.
  intros Hi. unfold cell, fit. rewrite lookup_take_lt by done.
  destruct (decide (i < length r)) as [Hlt|Hge].
  - by rewrite lookup_app_l.
  - rewrite lookup_app_r by lia. rewrite (lookup_ge_None_2 r i) by lia.
    by rewrite lookup_replicate_2 by lia.
Qed.

Lemma positions_spec name cols k j :
  j ∈ positions name cols k ↔ k ≤ j ∧ cols !! (j - k) = Some name.
Proof.
  revert k. induction cols as [|c cols IH]; intros k; simpl.
  - split; [by intros ?%elem_of_nil | by intros [_ ?]].
  - assert (j ∈ positions name cols (S k)
            ↔ k < j ∧ (c :: cols) !! (j - k) = Some name) as Htail.
    { rewrite IH. split.
      - intros [Hle Hl]. split; [lia|].
        replace (j - k) with (S (j - S k)) by lia. done.
      - intros [Hlt Hl]. split; [lia|].
        replace (j - k) with (S (j - S k)) in Hl by lia. done. }
    destruct (decide (c = name)) as [->|Hne].
    + rewrite elem_of_cons, Htail. split.
      * intros [-> | [Hlt Hl]]; [|split; [lia|done]].
        split; [lia|]. by rewrite Nat.sub_diag.
      * intros [Hle Hl]. destruct (decide (j = k)) as [->|]; [by left|].
        right. split; [lia|done].
    + rewrite Htail. split; [intros [? ?]; split; [lia|done]|].
      intros [Hle Hl]. split; [|done].
      destruct (decide (j = k)) as [->|]; [|lia].
      rewrite Nat.sub_diag in Hl. simpl in Hl. congruence.
Qed.

Lemma resolve_Some name cols i :
  resolve name cols = Some i → positions name cols 0 = [i] ∧ cols !! i = Some name.
Proof.
  unfold resolve. destruct (positions name cols 0) as [|j [|]] eqn:E; try done.
  intros [= ->]. split; [done|].
  assert (i ∈ positions name cols 0) as Hin by (rewrite E; apply list_elem_of_here).
  apply positions_spec in Hin as [_ Hin]. by rewrite Nat.sub_0_r in Hin.
Qed.

Lemma foldr_insert_other (v : value) (l : row) ps j :
  j ∉ ps → foldr (λ i acc, <[i := v]> acc) l ps !! j = l !! j.
Proof.
  induction ps as [|p ps IH]; intros Hj; [done|].
  apply not_elem_of_cons in Hj as [Hne Hj]. simpl.
  rewrite list_lookup_insert_ne by done. by apply IH.
Qed.

Lemma rows_withColumn name c df :
  rows (DF.withColumn name c df) = withColumn_row name c (columns df) <$> rows df.
Proof.
  unfold DF.withColumn, DF.withColumn_at, withColumn_row.
  destruct (positions name (columns df) 0); simpl.
  - apply (imap_const (λ r, fit (length (columns df)) r ++ [c r])).
  - apply (imap_const (λ r, <[n := c r]>
                               (foldr (λ i acc, <[i := c r]> acc)
                                  (fit (length (columns df)) r) l))).
Qed.

(** A column that [withColumn] does not name keeps its cells. *)
Lemma cell_of_withColumn_other name other c df r :
  name ≠ other →
  cell_of (DF.withColumn name c df) other (withColumn_row name c (columns df) r)
  = cell_of df other r.
Proof.
  intros Hne. unfold cell_of. rewrite resolve_withColumn_other by done.
  destruct (resolve other (columns df)) as [j|] eqn:Hj; [|done].
  apply resolve_Some in Hj as [_ Hj].
  assert (j < length (columns df)) as Hlt by (by eapply lookup_lt_Some).
  unfold withColumn_row.
  destruct (positions name (columns df) 0) as [|p ps] eqn:E.
  - unfold cell at 1. rewrite lookup_app_l by (by rewrite length_fit).
    by apply cell_fit.
  - rewrite <- (cell_fit (length (columns df)) j r Hlt). unfold cell.
    rewrite foldr_insert_other; [done|]. rewrite <- E. intros Hin.
    apply positions_spec in Hin as [_ Hin]. rewrite Nat.sub_0_r in Hin. congruence.
Qed.

(** The column that [withColumn] names holds the new cells, when the name
    resolves afterwards. *)
Lemma cell_of_withColumn_new name c df r :
  is_Some (resolve name (columns (DF.withColumn name c df))) →
  cell_of (DF.withColumn name c df) name (withColumn_row name c (columns df) r) = c r.
Proof.
  intros [i Hi]. unfold cell_of. rewrite Hi.
  apply resolve_Some in Hi as [Hpos Hi].
  unfold DF.withColumn in Hpos, Hi. rewrite columns_withColumn_at in Hpos, Hi.
  unfold withColumn_row.
  destruct (decide (name ∈ columns df)) as [Hin|Hin].
  - rewrite Hpos. simpl. unfold cell.
    rewrite list_lookup_insert_eq; [done|]. rewrite length_fit.
    by eapply lookup_lt_Some.
  - assert (positions name (columns df) 0 = []) as E by (by apply positions_nil).
    rewrite E. rewrite positions_app, E in Hpos. simpl in Hpos.
    rewrite decide_True in Hpos by done. injection Hpos as <-.
    unfold cell. rewrite lookup_app_r by (rewrite length_fit; lia).
    by rewrite length_fit, Nat.sub_diag.
Qed.

(** ** The [time] table *)

Lemma cell_as_cell_of df name i (r : row) :
  resolve name (columns df) = Some i → cell i r = cell_of df name r.
Proof. intros H. unfold cell_of. by rewrite H. Qed.

(** The rows of the frame with the calendar columns, read under the columns
    of the [time] table, are the [time] rows of the [start_time] cells. *)
Lemma calendar_cells tz df dfc :
  calendar_columns tz df = Ok dfc →
  resolvable (columns dfc) (sel_source <$> time_items) →
  ∃ V : row → row,
    rows dfc = V <$> rows df
    ∧ ∀ r, project dfc (sel_source <$> time_items) (V r)
           = time_row tz (cell_of df "start_time" r).
Proof.
  intros H Hres. unfold calendar_columns in H. run_inv H. injection H as <-.
  repeat match goal with
         | H : getitem _ "start_time" = Ok _ |- _ =>
             apply getitem_ok in H as (? & ? & ->)
         end.
  eexists (λ r, withColumn_row "hour" _ _ (withColumn_row "day" _ _
            (withColumn_row "weekday" _ _ (withColumn_row "week" _ _
              (withColumn_row "month" _ _ (withColumn_row "year" _ _ r)))))).
  split.
  { rewrite !rows_withColumn, <- !list_fmap_compose. reflexivity. }
  intros r.
  unfold resolvable in Hres. simpl in Hres.
  repeat match goal with
         | H : Forall _ (_ :: _) |- _ => apply Forall_cons in H as [? H]
         end.
  repeat match goal with
         | H : is_Some (resolve _ (columns (DF.withColumn _ _ _))) |- _ =>
             progress rewrite !resolve_withColumn_other in H by discriminate
         end.
  unfold project, time_row. simpl fmap.
  repeat match goal with |- _ :: _ = _ :: _ => f_equal end.
  all: rewrite ?cell_of_withColumn_other by discriminate.
  all: try (rewrite cell_of_withColumn_new by done).
  all: unfold hour, dayofmonth, weekofyear, date_format_E, year, month, lit.
  all: repeat match goal with
         | H : resolve "start_time" (columns ?d) = Some ?i |- context [cell ?i ?r] =>
             rewrite (cell_as_cell_of d "start_time" i r H)
         end.
  all: rewrite ?cell_of_withColumn_other by discriminate.
  all: reflexivity.
Qed.

(** [X12].  When lines 144-176 run to the end, the [time] table they store
    (partitioned by year and month) holds, without duplicates, exactly one
    row per distinct [start_time] cell of the events: the cell itself
    followed by its hour, day, week, weekday, year and month in the session
    time zone ([null] fields for a [start_time] that is not a timestamp). *)
Theorem time_table_contents spark o df w :
  res (log_tail spark o df w) = Ok () →
  ∃ time,
    s3 (world (log_tail spark o df w)) !! (o +:+ "time") = Some time
    ∧ partitionBy time = ["year"; "month"]
    ∧ columns (table time)
      = ["start_time"; "hour"; "day"; "week"; "weekday"; "year"; "month"]
    ∧ NoDup (rows (table time))
    ∧ ∀ r, r ∈ rows (table time)
           ↔ ∃ e, e ∈ rows df
                  ∧ r = time_row (timeZone spark) (cell_of df "start_time" e).
Proof.
  intros H.
  destruct (log_tail_ok _ _ _ _ H)
    as (dfc & time & song_df & sp & Hcal & Htime & _ & _ & ->).
  exists (mkDataset ["year"; "month"] (DF.distinct time)).
  assert (o +:+ "songplays" ≠ o +:+ "time") as Hne
    by (intros Heq; apply append_inj_r in Heq; discriminate).
  split; [simpl; by rewrite lookup_insert_ne, lookup_insert_eq|].
  split; [done|].
  split; [simpl; by rewrite (columns_select _ _ _ Htime)|].
  split; [apply NoDup_remove_dups|].
  assert (resolvable (columns dfc) (sel_source <$> time_items)) as Hres
    by (apply select_ok_iff; eauto).
  destruct (calendar_cells _ _ _ Hcal Hres) as (V & HV & Hrow).
  intros r. simpl table. rewrite (elem_of_distinct_select _ _ _ r Htime), HV.
  split.
  - intros (x & Hx & ->). apply list_elem_of_fmap in Hx as (e & -> & He).
    exists e. split; [done|]. apply Hrow.
  - intros (e & He & ->). exists (V e). split; [by apply list_elem_of_fmap_2|].
    symmetry. apply Hrow.
Qed.

Lemma time_table_contents_witness :
  res (log_tail Sample.session output_data Sample.timed_events Sample.song_world)
    = Ok ()
  ∧ ∃ time,
      s3 (world (log_tail Sample.session output_data Sample.timed_events
                   Sample.song_world)) !! (output_data +:+ "time") = Some time
      ∧ ∀ r, r ∈ rows (table time)
             ↔ ∃ e, e ∈ rows Sample.timed_events
                    ∧ r = time_row 0 (cell_of Sample.timed_events "start_time" e).
Proof.
  assert (res (log_tail Sample.session output_data Sample.timed_events
                 Sample.song_world) = Ok ()) as H by (vm_compute; reflexivity).
  split; [exact H|].
  destruct (time_table_contents Sample.session output_data Sample.timed_events
              Sample.song_world H) as (time & Ht & _ & _ & _ & Hrows).
  exists time. split; [exact Ht|exact Hrows].
Defined.

(** ** The [artists] table *)

(** [X13].  When the song pipeline completes, the [artists] table it stores,
    unpartitioned, holds exactly the projections of the input records on
    artist_id, artist_name, artist_location, artist_latitude and
    artist_longitude: every record contributes its artist row and every row
    comes from a record. *)
Theorem artists_table_contents spark i o w :
  res (process_song_data spark i o w) = Ok () →
  ∃ d artists,
    s3 w !! song_path i = Some d
    ∧ s3 (world (process_song_data spark i o w)) !! (o +:+ "artists") = Some artists
    ∧ partitionBy artists = []
    ∧ ∀ r, r ∈ rows (table artists)
           ↔ ∃ x, x ∈ rows (table d)
                  ∧ r = project (table d)
                          ["artist_id"; "artist_name"; "artist_location";
                           "artist_latitude"; "artist_longitude"] x.
Proof.
  intros H.
  destruct (process_song_data_ok _ _ _ _ H)
    as (d & songs & view & artists & Hd & _ & _ & Hartists & ->).
  exists d, (mkDataset [] (DF.distinct artists)).
  split; [done|]. split; [apply lookup_insert_eq|]. split; [done|].
  intros r. apply (elem_of_distinct_select _ _ _ r Hartists).
Qed.

Lemma artists_table_contents_witness :
  res (process_song_data Sample.session input_data output_data
         Sample.world_two_names) = Ok ()
  ∧ ∃ artists,
      s3 (world (process_song_data Sample.session input_data output_data
                   Sample.world_two_names)) !! (output_data +:+ "artists")
        = Some artists
      ∧ ∀ r, r ∈ rows (table artists)
             ↔ ∃ x, x ∈ rows Sample.song_two_names
                    ∧ r = project Sample.song_two_names
                            ["artist_id"; "artist_name"; "artist_location";
                             "artist_latitude"; "artist_longitude"] x.
Proof.
  assert (res (process_song_data Sample.session input_data output_data
                 Sample.world_two_names) = Ok ()) as H by (vm_compute; reflexivity).
  split; [exact H|].
  destruct (artists_table_contents Sample.session input_data output_data
              Sample.world_two_names H) as (d & artists & Hd & Ha & _ & Hrows).
  assert (d = mkDataset [] Sample.song_two_names) as ->.
  { assert (s3 Sample.world_two_names !! song_path input_data
            = Some (mkDataset [] Sample.song_two_names)) as Hd'
      by (vm_compute; reflexivity).
    rewrite Hd in Hd'. by injection Hd'. }
  exists artists. split; [exact Ha|exact Hrows].
Defined.

(** ** Year and month of a [songplays] row *)

Lemma jresolve_left lcols rcols c alias f :
  jresolve lcols rcols (JLeft c alias) = Ok f → ∀ p, f p = c p.1.
Proof. intros [= <-]. done. Qed.

(** [X14].  In every [songplays] row the [year] and [month] cells are those
    of the event of the joined pair, never the song's [year]: the two
    columns are taken from the events frame by reference, so the [year]
    column that both sides of the join carry causes no ambiguity. *)
Theorem songplays_year_month_from_event spark df song_df t :
  songplays_table spark df song_df = Ok t →
  ∃ j, songplays_join df song_df = Ok j
       ∧ ∀ k e s r, jrows j !! k = Some (e, s) → rows t !! k = Some r →
           cell_of t "year" r = cell_of df "year" e
           ∧ cell_of t "month" r = cell_of df "month" e.
Proof.
  intros H.
  destruct (songplays_table_rows _ _ _ _ H)
    as (j & year & month & fs & Hj & Hy & Hm & Hfs & Hrows).
  destruct (songplays_table_spec _ _ _ _ H)
    as (_ & year' & month' & _ & _ & _ & _ & _ & _ & Hcols & _).
  exists j. split; [done|]. intros k e s r Hk Hr.
  rewrite Hrows, list_lookup_imap, list_lookup_fmap, Hk in Hr. simpl in Hr.
  injection Hr as <-.
  destruct (jresolve_all_lookup _ _ _ _ 8 (JLeft year "year") Hfs eq_refl)
    as (f8 & Hf8 & Hres8).
  destruct (jresolve_all_lookup _ _ _ _ 9 (JLeft month "month") Hfs eq_refl)
    as (f9 & Hf9 & Hres9).
  pose proof (jresolve_left _ _ _ _ _ Hres8 (e, s)) as H8.
  pose proof (jresolve_left _ _ _ _ _ Hres9 (e, s)) as H9.
  pose proof (jresolve_all_length _ _ _ _ Hfs) as Hlen. simpl in Hlen.
  apply getitem_ok in Hy as (iy & Hiy & ->).
  apply getitem_ok in Hm as (im & Him & ->).
  unfold cell_of. rewrite Hcols, Hiy, Him.
  change (resolve "year" _) with (Some 8).
  change (resolve "month" _) with (Some 9).
  unfold cell at 1 3.
  rewrite !lookup_app_l by (rewrite length_fmap, Hlen; lia).
  rewrite !list_lookup_fmap, Hf8, Hf9. simpl. by rewrite H8, H9.
Qed.

Lemma songplays_year_month_from_event_witness :
  songplays_table Sample.session Sample.calendar_events Sample.songs_view
    = Ok Sample.songplays
  ∧ cell_of Sample.songs_view "year" [VStr "S1"; VStr "X"; VStr "A1"; VLong 2000]
    = VLong 2000
  ∧ ∃ j, songplays_join Sample.calendar_events Sample.songs_view = Ok j
         ∧ ∀ k e s r, jrows j !! k = Some (e, s) → rows Sample.songplays !! k = Some r →
             cell_of Sample.songplays "year" r = cell_of Sample.calendar_events "year" e
             ∧ cell_of Sample.songplays "month" r
               = cell_of Sample.calendar_events "month" e.
Proof.
  assert (songplays_table Sample.session Sample.calendar_events Sample.songs_view
            = Ok Sample.songplays) as H by (vm_compute; reflexivity).
  split; [exact H|]. split; [vm_compute; reflexivity|].
  exact (songplays_year_month_from_event _ _ _ _ H).
Defined.

(** ** Missing input *)

(** [X15].  When nothing is stored under the song input path, [main] raises
    the engine's exception for that path at once: no effect is performed,
    the world is left as it was, and the log pipeline is not started. *)
Theorem main_without_song_data session w :
  s3 w !! song_path input_data = None →
  main session w
  = mkOutcome w [] (Raise (AnalysisException (song_path input_data))).
Proof.
  intros Hd. unfold main, create_spark_session, bind, ret. simpl.
  assert (process_song_data session input_data output_data w
          = mkOutcome w [] (Raise (AnalysisException (song_path input_data))))
    as ->; [|done].
  unfold process_song_data, song_path in *.
  assert (read_json (input_data +:+ "song_data/*/*/*/*.json") w
          = mkOutcome w [] (Raise (AnalysisException
                                     (input_data +:+ "song_data/*/*/*/*.json"))))
    as Hread by (unfold read_json; by rewrite Hd).
  by rewrite (bind_raise _ _ _ _ (f_equal res Hread)), Hread.
Qed.

Lemma main_without_song_data_witness :
  s3 {| s3 := ∅; views := ∅ |} !! song_path input_data = None
  ∧ main Sample.session {| s3 := ∅; views := ∅ |}
    = mkOutcome {| s3 := ∅; views := ∅ |} []
        (Raise (AnalysisException (song_path input_data))).
Proof.
  assert (s3 {| s3 := ∅; views := ∅ |} !! song_path input_data = None) as Hd
    by reflexivity.
  split; [exact Hd|].
  exact (main_without_song_data Sample.session _ Hd).
Defined.

(** [X16].  On events that have no [page] column the log pipeline stops at
    the filter of line 117 with an [AttributeError] for [page]: it has read
    the events and written nothing. *)
Theorem log_pipeline_without_page spark i o w d :
  s3 w !! log_path i = Some d →
  "page" ∉ columns (table d) →
  process_log_data spark i o w
  = mkOutcome w [EvRead (log_path i)] (Raise (AttributeError "page")).
Proof.
  intros Hd Hpage. rewrite process_log_data_outcome.
  assert (getattr (table d) "page" = Raise (AttributeError "page")) as Hattr.
  { unfold getattr, resolve. rewrite (proj2 (positions_nil _ _ 0) Hpage).
    by rewrite decide_False. }
  assert (log_head spark i o w
          = mkOutcome w [EvRead (log_path i)] (Raise (AttributeError "page")))
    as ->; [|done].
  unfold log_head, log_path in *.
  repeat run_step;
    try (destruct Hread as (d' & Hd' & ->); rewrite Hd in Hd'; injection Hd' as <-);
    try congruence.
  all: match goal with
       | H1 : ?x = Raise _, H2 : ?x = Raise _ |- _ =>
           rewrite H1 in H2; injection H2 as <-
       end.
  all: reflexivity.
Qed.

Lemma log_pipeline_without_page_witness :
  s3 (Sample.store Sample.song_full Sample.song_full) !! log_path input_data
    = Some (mkDataset [] Sample.song_full)
  ∧ ("page" ∉ columns Sample.song_full)
  ∧ res (process_log_data Sample.session input_data output_data
           (Sample.store Sample.song_full Sample.song_full))
    = Raise (AttributeError "page").
Proof.
  assert (s3 (Sample.store Sample.song_full Sample.song_full) !! log_path input_data
          = Some (mkDataset [] Sample.song_full)) as Hd by (vm_compute; reflexivity).
  assert ("page" ∉ columns Sample.song_full) as Hp.
  { rewrite list_elem_of_In. simpl. intuition discriminate. }
  split; [exact Hd|]. split; [exact Hp|].
  rewrite (log_pipeline_without_page Sample.session input_data output_data _ _ Hd Hp).
  reflexivity.
Defined.

(** ** The derivation of [start_time] *)

(** The only frame the head of the log pipeline hands out is the [users]
    table, under its five columns. *)
Lemma log_head_hands_out_users spark i o w :
  Forall (λ ev, ev = EvRead (log_path i)
                ∨ ∃ df, ev = EvWrite Overwrite [] (o +:+ "users") df
                        ∧ columns df
                          = ["user_id"; "first_name"; "last_name"; "gender"; "level"])
         (events (log_head spark i o w)).
Proof.
  unfold log_head, log_path. fold users_items. repeat run_step; simpl;
    repeat first [ apply Forall_nil_2 | apply Forall_cons_2 ]; eauto.
  all: right; eexists; split; [reflexivity|].
  all: match goal with
       | H : DF.select users_items _ = Ok ?t |- _ =>
           simpl; by rewrite (columns_select _ _ _ H)
       end.
Qed.

Lemma log_head_only_users spark i o w p :
  p ≠ o +:+ "users" → s3 (world (log_head spark i o w)) !! p = s3 w !! p.
Proof.
  intros Hp. rewrite tracked_log_head.
  assert (Forall (λ ev, overwrites ev ∧ writes_within [o +:+ "users"] ev)
                 (events (log_head spark i o w))) as Hev.
  { eapply Forall_impl; [apply log_head_events|]. apply head_effect_writes. }
  apply Forall_and in Hev as [How Hin].
  rewrite lookup_replay by done.
  rewrite (last_write_outside [o +:+ "users"]); [done| |done].
  by intros ->%list_elem_of_singleton.
Qed.



(** ** Running the job again *)

Lemma getattr_withColumn_session name c c' df n :
  match getattr (DF.withColumn name c df) n, getattr (DF.withColumn name c' df) n with
  | Ok _, Ok _ => True
  | Raise e, Raise e' => e = e'
  | _, _ => False
  end.
Proof.
  unfold getattr, DF.withColumn. rewrite !columns_withColumn_at.
  destruct (resolve n _); [done|]. by destruct (decide _).
Qed.

(** The session decides nothing of what the head of the log pipeline does
    to the world, performs or raises. *)
Lemma log_head_session spark spark' i o w :
  world (log_head spark i o w) = world (log_head spark' i o w)
  ∧ events (log_head spark i o w) = events (log_head spark' i o w)
  ∧ match res (log_head spark i o w), res (log_head spark' i o w) with
    | Ok _, Ok _ => True
    | Raise e, Raise e' => e = e'
    | _, _ => False
    end.
Proof.
  unfold log_head.
  repeat (run_step;
          repeat match goal with
                 | H : ∃ d, _ ∧ _ = table d |- _ => destruct H as (? & ? & ->)
                 | H1 : ?l = Some _, H2 : ?l = Some _ |- _ =>
                     rewrite H1 in H2; injection H2 as <-
                 | H1 : ?x = Ok _, H2 : ?x = Ok _ |- _ =>
                     rewrite H1 in H2; injection H2 as <-
                 | H1 : ?x = Raise _, H2 : ?x = Raise _ |- _ =>
                     rewrite H1 in H2; injection H2 as <-
                 end;
          try congruence).
  all: try done.
  all: try match goal with
           | H1 : getattr (DF.withColumn ?n ?c ?df) ?m = _,
             H2 : getattr (DF.withColumn ?n ?c' ?df) ?m = _ |- _ =>
               pose proof (getattr_withColumn_session n c c' df m) as HH;
               rewrite H1, H2 in HH
           end.
  all: try done.
  all: try by subst.
  simpl. split; [done|]. split; [done|]. by injection E.
Qed.

Lemma main_session session session' w : main session w = main session' w.
Proof.
  assert (∀ w, bind (process_song_data session input_data output_data)
                 (λ _, process_log_data session input_data output_data) w
               = bind (process_song_data session' input_data output_data)
                   (λ _, process_log_data session' input_data output_data) w)
    as Hinner.
  { clear w. intros w.
    change (process_song_data session' input_data output_data)
      with (process_song_data session input_data output_data).
    destruct (res (process_song_data session input_data output_data w))
      as [[]|e] eqn:E.
    - rewrite !(bind_ok _ _ _ _ E), !process_log_data_outcome. simpl.
      destruct (log_head_session session session' input_data output_data
                  (world (process_song_data session input_data output_data w)))
        as (Hw & Hev & Hres).
      rewrite Hw, Hev.
      destruct (res (log_head session _ _ _)), (res (log_head session' _ _ _));
        try done. by subst.
    - by rewrite !(bind_raise _ _ _ _ E). }
  unfold main, create_spark_session.
  rewrite (bind_ok (ret session) _ w session eq_refl),
    (bind_ok (ret session') _ w session' eq_refl).
  cbv beta. simpl world. by rewrite Hinner.
Qed.


